(** * Model Poker: the orchestration loop and the decision protocol

    A shallow embedding of [src/index.ts].  The poker engine (poker-ts), the
    remote model and the template engine are outside the repository: the
    engine is an abstract [GameRules] structure, the remote model an oracle
    answering the n-th request, a compiled template a function from template
    data to a prompt or to the error thrown on rendering (a template may call
    the helpers [randomNumber] and [join]; the prompt only travels to the
    model, whose answer is taken as given).
    JavaScript numbers met here are finite (they come out of JSON or out of
    the engine) and are modelled as rationals.  Exceptions are values of
    [Thrown]; loops take fuel and a run that exhausts it is [Diverged]. *)

From Stdlib Require Import List String Ascii Bool Arith Lia QArith.
Import ListNotations.

Local Open Scope string_scope.
Local Open Scope list_scope.
Local Open Scope nat_scope.

Set Warnings "-register-all".

(** ** Types and interfaces (index.ts, lines 12-52) *)

Definition number := Q.

(** [type Action = "fold" | "check" | "call" | "bet" | "raise"] *)
Inductive Action : Type := fold | check | call | bet | raise.

Definition action_name (a : Action) : string :=
  match a with
  | fold => "fold"
  | check => "check"
  | call => "call"
  | bet => "bet"
  | raise => "raise"
  end.

Definition Action_eqb (a b : Action) : bool :=
  match a, b with
  | fold, fold | check, check | call, call | bet, bet | raise, raise => true
  | _, _ => false
  end.

Record Card := { rank : string; suit : string }.

Module Pot.
Record t := { size : number; eligiblePlayers : list nat }.
End Pot.

Module Seat.
Record t := { totalChips : number; stack : number; betSize : number }.
End Seat.

Module ChipRange.
Record t := { min : number; max : number }.
End ChipRange.

Module LegalActions.
Record t := { actions : list Action; chipRange : option ChipRange.t }.
End LegalActions.

Module TakenAction.
Record t := { action : Action; betSize : option number }.
End TakenAction.

(** The data handed to a player's template (the object literal built by
    [createTemplateData]). *)
Module PlayerStack.
Record t := {
  name : string;
  status : string;
  totalChips : number;
  stack : option number;
  betSize : option number }.
End PlayerStack.

Module PotView.
Record t := { size : number; eligiblePlayers : list string }.
End PotView.

Module TemplateData.
Record t := {
  player_name : string;
  player_seatIndex : nat;
  holeCards : option (option (list Card));
  communityCards : list Card;
  pots : list PotView.t;
  legalActions : LegalActions.t;
  round : string;
  playerStacks : list PlayerStack.t }.
End TemplateData.

Module PlayerConfig.
Record t := { name : string; model : string }.
End PlayerConfig.

(** ** Values exchanged with the remote model *)

(** A JSON value; an object is the list of its entries and a key is read at
    its first entry. *)
Inductive Json : Type :=
| JNull
| JBool (b : bool)
| JNum (q : number)
| JStr (s : string)
| JArr (items : list Json)
| JObj (entries : list (string * Json)).

Fixpoint field (k : string) (entries : list (string * Json)) : option Json :=
  match entries with
  | [] => None
  | (k', v) :: rest => if String.eqb k k' then Some v else field k rest
  end.

(** [interface ContentBlock { type: string; [key: string]: any }] *)
Module ContentBlock.
Record t := { type : string; props : list (string * Json) }.
End ContentBlock.

(** The tool handed to the model: the [enum] of offered actions and, when a
    chip range is offered, the [betSize] property with its bounds. *)
Module Tool.
Record t := {
  name : string;
  enum : list Action;
  betSize : option (number * number) }.
End Tool.

Module Request.
Record t := {
  model : string;
  max_tokens : nat;
  temperature : number;
  tools : list Tool.t;
  system : string;
  user : string }.
End Request.

(** ** What can be thrown *)

Inductive ZodIssueCode : Type :=
  invalid_type | invalid_enum_value | too_small | too_big.

Record ZodIssue := { code : ZodIssueCode; path : list string }.

Inductive Thrown : Type :=
| ApiError (detail : string)        (* rejection of anthropic.messages.create *)
| NoToolUse                         (* Error("No tool use block found") *)
| ZodError (issues : list ZodIssue) (* schema.parse refused the input *)
| TooManyPlayers (max : nat)        (* Error(`Too many players (max ${n})`) *)
| TypeError (what : string)         (* a property read on undefined *)
| FsError (what : string)           (* a configuration file could not be read *)
| GameRulesError (what : string).   (* an assertion of the poker engine *)

(** A player of the roster; [template] is the compiled template. *)
Module ModelPlayer.
Record t := {
  name : string;
  index : nat;
  prompt : string;
  model : string;
  template : TemplateData.t -> Thrown + string }.
End ModelPlayer.

Inductive ApiResult : Type :=
| Rejected (detail : string)
| Resolved (content : list ContentBlock.t).

(** ** zod schemas of [callModel] (lines 285-307) *)

(** [z.enum([actions[0], ...actions.slice(1)])] at key [action]. *)
Definition parse_action (offered : list Action) (v : option Json)
  : list ZodIssue + Action :=
  match v with
  | Some (JStr s) =>
      match find (fun a => String.eqb (action_name a) s) offered with
      | Some a => inr a
      | None => inl [ {| code := invalid_enum_value; path := ["action"] |} ]
      end
  | _ => inl [ {| code := invalid_type; path := ["action"] |} ]
  end.

(** [z.number().min(lo).max(hi).optional()] at key [betSize]. *)
Definition parse_betSize (r : ChipRange.t) (v : option Json)
  : list ZodIssue + option number :=
  match v with
  | None => inr None
  | Some (JNum q) =>
      let small :=
        if Qle_bool (ChipRange.min r) q then []
        else [ {| code := too_small; path := ["betSize"] |} ] in
      let big :=
        if Qle_bool q (ChipRange.max r) then []
        else [ {| code := too_big; path := ["betSize"] |} ] in
      match small ++ big with
      | [] => inr (Some q)
      | issues => inl issues
      end
  | Some _ => inl [ {| code := invalid_type; path := ["betSize"] |} ]
  end.

Definition issues_of {A} (r : list ZodIssue + A) : list ZodIssue :=
  match r with inl i => i | inr _ => [] end.

(** [takenActionSchema.parse(toolUseBlock.input)]: the schema has the key
    [betSize] only when a chip range is offered; keys outside the schema are
    stripped from the result. *)
Definition parse_takenAction (L : LegalActions.t) (input : option Json)
  : Thrown + TakenAction.t :=
  match input with
  | Some (JObj entries) =>
      let a := parse_action (LegalActions.actions L) (field "action" entries) in
      match LegalActions.chipRange L with
      | Some r =>
          let b := parse_betSize r (field "betSize" entries) in
          match a, b with
          | inr a', inr b' =>
              inr {| TakenAction.action := a'; TakenAction.betSize := b' |}
          | _, _ => inl (ZodError (issues_of a ++ issues_of b))
          end
      | None =>
          match a with
          | inr a' =>
              inr {| TakenAction.action := a'; TakenAction.betSize := None |}
          | inl i => inl (ZodError i)
          end
      end
  | _ => inl (ZodError [ {| code := invalid_type; path := [] |} ])
  end.

(** ** The poker engine, as the program uses it (poker-ts, [Poker]) *)

(** Commands change the table and may fail on one of the engine's
    assertions; queries read it. *)
Module GameRules.
Record t := {
  Table : Type;
  newTable : number -> number -> Table;
  numSeats : Table -> nat;
  sitDown : Table -> nat -> number -> Thrown + Table;
  seats : Table -> list (option Seat.t);
  startHand : Table -> Thrown + Table;
  isHandInProgress : Table -> bool;
  isBettingRoundInProgress : Table -> bool;
  playerToAct : Table -> nat;
  legalActions : Table -> LegalActions.t;
  holeCards : Table -> list (option (list Card));
  actionTaken : Table -> Action -> option number -> Thrown + Table;
  endBettingRound : Table -> Thrown + Table;
  pots : Table -> list Pot.t;
  communityCards : Table -> list Card;
  areBettingRoundsCompleted : Table -> bool;
  showdown : Table -> Thrown + Table;
  winners : Table -> list Json;
  roundOfBetting : Table -> string }.
End GameRules.

(** The commands sent to the engine. *)
Module Call.
Inductive t : Type :=
| sitDown (index : nat) (chips : number)
| startHand
| actionTaken (action : Action) (betSize : option number)
| endBettingRound
| showdown.
End Call.

(** The records of the journal, one per call of [logger]. *)
Module Event.
Inductive t : Type :=
| game_start (seats : list (option Seat.t))
| hand_start (handIndex : nat) (seats : list (option Seat.t))
| player_action (name : string) (cards : option (option (list Card)))
                (action : Action) (betSize : option number)
| end_betting_round (pots : list Pot.t) (communityCards : list Card)
| showdown (winners : list Json)
| hand_end (seats : list (option Seat.t))
| game_end (winner : string).
End Event.

(** What a run does to the outside, in order. *)
Inductive Effect : Type :=
| Logged (e : Event.t)          (* a line appended to the game file *)
| ConsoleError (e : Thrown)     (* console.error(error) *)
| Command (c : Call.t)          (* a command the table carried out *)
| Refused (c : Call.t) (e : Thrown) (* a command on which the table threw *)
| Requested (r : Request.t).    (* a request sent to the model *)

Inductive Outcome (A : Type) : Type :=
| Returned (a : A)
| Threw (e : Thrown)
| Diverged.
Arguments Returned {A} a.
Arguments Threw {A} e.
Arguments Diverged {A}.

(** ** Array helpers *)

Fixpoint filteri_from {A} (f : A -> nat -> bool) (i : nat) (l : list A)
  : list A :=
  match l with
  | [] => []
  | x :: rest =>
      if f x i then x :: filteri_from f (S i) rest
      else filteri_from f (S i) rest
  end.

(** [l.filter((x, i) => f(x, i))] *)
Definition filteri {A} (f : A -> nat -> bool) (l : list A) : list A :=
  filteri_from f 0 l.

Fixpoint traverse {A B} (f : A -> Thrown + B) (l : list A)
  : Thrown + list B :=
  match l with
  | [] => inr []
  | x :: rest =>
      match f x with
      | inl e => inl e
      | inr y =>
          match traverse f rest with
          | inl e => inl e
          | inr ys => inr (y :: ys)
          end
      end
  end.

Fixpoint traversei_from {A B} (f : A -> nat -> Thrown + B) (i : nat)
  (l : list A) : Thrown + list B :=
  match l with
  | [] => inr []
  | x :: rest =>
      match f x i with
      | inl e => inl e
      | inr y =>
          match traversei_from f (S i) rest with
          | inl e => inl e
          | inr ys => inr (y :: ys)
          end
      end
  end.

(** [l.map((x, i) => f(x, i))], where [f] may throw. *)
Definition traversei {A B} (f : A -> nat -> Thrown + B) (l : list A)
  : Thrown + list B :=
  traversei_from f 0 l.

Definition truthy {A} (x : option A) : bool :=
  match x with Some _ => true | None => false end.

Fixpoint findIndex_from {A} (f : A -> bool) (i : nat) (l : list A)
  : option nat :=
  match l with
  | [] => None
  | x :: rest => if f x then Some i else findIndex_from f (S i) rest
  end.

(** [l.findIndex(f)]; [None] stands for -1. *)
Definition findIndex {A} (f : A -> bool) (l : list A) : option nat :=
  findIndex_from f 0 l.

(** [players[i].name] *)
Definition name_at (players : list ModelPlayer.t) (i : nat)
  : Thrown + string :=
  match nth_error players i with
  | Some p => inr (ModelPlayer.name p)
  | None => inl (TypeError "name")
  end.

(** The two object literals of lines 346-358, for the player named [n]: an
    entry that holds a seat object, and an entry that is [null]. *)
Definition rendered (n : string) (seat : option Seat.t) : PlayerStack.t :=
  match seat with
  | Some st =>
      {| PlayerStack.name := n;
         PlayerStack.status := "active";
         PlayerStack.totalChips := Seat.totalChips st;
         PlayerStack.stack := Some (Seat.stack st);
         PlayerStack.betSize := Some (Seat.betSize st) |}
  | None =>
      {| PlayerStack.name := n;
         PlayerStack.status := "eliminated";
         PlayerStack.totalChips := 0%Q;
         PlayerStack.stack := None;
         PlayerStack.betSize := None |}
  end.

Definition INITIAL_CHIPS : number := 1000%Q.
Definition SMALL_BLIND : number := 50%Q.
Definition BIG_BLIND : number := 100%Q.

(** ** The program *)

Section Program.

Variable G : GameRules.t.

(** [anthropic n r]: what the remote model answers to request [r] when [n]
    requests were sent before it. *)
Variable anthropic : nat -> Request.t -> ApiResult.

(** [Handlebars.compile]: the template it gives is run at each decision and
    may throw then (a helper called on a value the data lacks). *)
Variable compile : string -> TemplateData.t -> Thrown + string.

(** The globals [table] and [players], and the number of requests sent. *)
Record State := {
  table : GameRules.Table G;
  players : list ModelPlayer.t;
  requests : nat }.

(** A computation runs from a state to an outcome, a state and the effects
    it had, oldest first. *)
Definition M (A : Type) : Type := State -> Outcome A * State * list Effect.

Definition ret {A} (a : A) : M A := fun s => (Returned a, s, []).

Definition bind {A B} (m : M A) (k : A -> M B) : M B :=
  fun s =>
    match m s with
    | (Returned a, s1, tr1) =>
        match k a s1 with
        | (o, s2, tr2) => (o, s2, tr1 ++ tr2)
        end
    | (Threw e, s1, tr1) => (Threw e, s1, tr1)
    | (Diverged, s1, tr1) => (Diverged, s1, tr1)
    end.

Definition throw {A} (e : Thrown) : M A := fun s => (Threw e, s, []).

Definition diverge {A} : M A := fun s => (Diverged, s, []).

(** [try { m } catch (error) { h(error) }] *)
Definition try_catch {A} (m : M A) (h : Thrown -> M A) : M A :=
  fun s =>
    match m s with
    | (Threw e, s1, tr1) =>
        match h e s1 with
        | (o, s2, tr2) => (o, s2, tr1 ++ tr2)
        end
    | r => r
    end.

Definition lift {A} (r : Thrown + A) : M A :=
  match r with
  | inl e => throw e
  | inr a => ret a
  end.

Definition emit (x : Effect) : M unit := fun s => (Returned tt, s, [x]).

Definition get_table : M (GameRules.Table G) :=
  fun s => (Returned (table s), s, []).

Definition get_players : M (list ModelPlayer.t) :=
  fun s => (Returned (players s), s, []).

Definition with_table (s : State) (t : GameRules.Table G) : State :=
  {| table := t; players := players s; requests := requests s |}.

Definition after_request (s : State) : State :=
  {| table := table s; players := players s; requests := S (requests s) |}.

(** [players.push(player)] *)
Definition push_player (p : ModelPlayer.t) : M unit :=
  fun s =>
    (Returned tt,
     {| table := table s; players := players s ++ [p];
        requests := requests s |}, []).

Notation "x <- c1 ;; c2" := (bind c1 (fun x => c2))
  (at level 61, c1 at next level, right associativity).
Notation "c1 ;; c2" := (bind c1 (fun _ => c2))
  (at level 61, right associativity).

(** One command on the table: the call is made, and either the table
    changes or the engine throws. *)
Definition perform (c : Call.t) (t : GameRules.Table G)
  : Thrown + GameRules.Table G :=
  match c with
  | Call.sitDown i chips => GameRules.sitDown G t i chips
  | Call.startHand => GameRules.startHand G t
  | Call.actionTaken a b => GameRules.actionTaken G t a b
  | Call.endBettingRound => GameRules.endBettingRound G t
  | Call.showdown => GameRules.showdown G t
  end.

Definition command (c : Call.t) : M unit :=
  fun s =>
    match perform c (table s) with
    | inr t' => (Returned tt, with_table s t', [Command c])
    | inl e => (Threw e, s, [Refused c e])
    end.

(** [logger(event, data)] (lines 313-318); the echo on the console is left
    out. *)
Definition logger (e : Event.t) : M unit := emit (Logged e).

Definition console_error (e : Thrown) : M unit := emit (ConsoleError e).

(** [await anthropic.messages.create(...)] *)
Definition messages_create (r : Request.t) : M (list ContentBlock.t) :=
  fun s =>
    match anthropic (requests s) r with
    | Rejected d => (Threw (ApiError d), after_request s, [Requested r])
    | Resolved content => (Returned content, after_request s, [Requested r])
    end.

(** *** createTemplateData (lines 323-362) *)

Definition pot_view (ps : list ModelPlayer.t) (pot : Pot.t)
  : Thrown + PotView.t :=
  match traverse (name_at ps) (Pot.eligiblePlayers pot) with
  | inl e => inl e
  | inr names =>
      inr {| PotView.size := Pot.size pot;
             PotView.eligiblePlayers := names |}
  end.

(** The callback of [map] at lines 345-359: [rendered] on the name of
    [players[seatIndex]]. *)
Definition stack_view (ps : list ModelPlayer.t) (seat : option Seat.t)
  (seatIndex : nat) : Thrown + PlayerStack.t :=
  match name_at ps seatIndex with
  | inl e => inl e
  | inr n => inr (rendered n seat)
  end.

Definition playerStacks_of (ps : list ModelPlayer.t)
  (seats : list (option Seat.t)) : Thrown + list PlayerStack.t :=
  traversei (stack_view ps)
    (filteri (fun _ i => i <? List.length ps) seats).

Definition createTemplateData (t : GameRules.Table G)
  (ps : list ModelPlayer.t) (player : ModelPlayer.t)
  : Thrown + TemplateData.t :=
  match traverse (pot_view ps) (GameRules.pots G t) with
  | inl e => inl e
  | inr pots =>
      match playerStacks_of ps (GameRules.seats G t) with
      | inl e => inl e
      | inr stacks =>
          inr {| TemplateData.player_name := ModelPlayer.name player;
                 TemplateData.player_seatIndex := ModelPlayer.index player;
                 TemplateData.holeCards :=
                   nth_error (GameRules.holeCards G t)
                     (ModelPlayer.index player);
                 TemplateData.communityCards := GameRules.communityCards G t;
                 TemplateData.pots := pots;
                 TemplateData.legalActions := GameRules.legalActions G t;
                 TemplateData.round := GameRules.roundOfBetting G t;
                 TemplateData.playerStacks := stacks |}
      end
  end.

(** *** callModel (lines 234-308) *)

Definition actionTool (L : LegalActions.t) : Tool.t :=
  {| Tool.name := "take_action";
     Tool.enum := LegalActions.actions L;
     Tool.betSize :=
       match LegalActions.chipRange L with
       | Some r => Some (ChipRange.min r, ChipRange.max r)
       | None => None
       end |}.

Definition request_for (player : ModelPlayer.t) (prompt : string)
  (L : LegalActions.t) : Request.t :=
  {| Request.model := ModelPlayer.model player;
     Request.max_tokens := 2048;
     Request.temperature := (7 # 10)%Q;
     Request.tools := [actionTool L];
     Request.system :=
       ("You are " ++ ModelPlayer.name player ++
        ", an expert poker player making decisions in a Texas Hold'em game."
       )%string;
     Request.user := prompt |}.

(** [block.type === "tool_use" && block.name === "take_action"] *)
Definition is_take_action (block : ContentBlock.t) : bool :=
  String.eqb (ContentBlock.type block) "tool_use" &&
  match field "name" (ContentBlock.props block) with
  | Some (JStr n) => String.eqb n "take_action"
  | _ => false
  end.

Definition callModel (player : ModelPlayer.t) (prompt : string)
  (L : LegalActions.t) : M TakenAction.t :=
  content <- messages_create (request_for player prompt L) ;;
  match find is_take_action content with
  | None => throw NoToolUse
  | Some toolUseBlock =>
      lift (parse_takenAction L
              (field "input" (ContentBlock.props toolUseBlock)))
  end.

(** *** getModelAction (lines 208-229)

    The snapshot and the prompt are made before the [try]: what they throw
    leaves [getModelAction]; what [callModel] throws is caught. *)

Definition fallback : TakenAction.t :=
  {| TakenAction.action := fold; TakenAction.betSize := None |}.

Definition getModelAction (player : ModelPlayer.t) : M TakenAction.t :=
  t <- get_table ;;
  ps <- get_players ;;
  templateData <- lift (createTemplateData t ps player) ;;
  hydratedPrompt <- lift (ModelPlayer.template player templateData) ;;
  try_catch
    (callModel player hydratedPrompt (GameRules.legalActions G t))
    (fun error => console_error error ;; ret fallback).

(** *** main (lines 101-203) *)

(** What [./players/<dir>] gives: the parsed [config.json] and the text of
    [prompt.handlebars], or the error thrown on reading them. *)
Definition PlayerDir : Type := Thrown + (PlayerConfig.t * string).

(** The body of the loading loop (lines 110-141). *)
Definition loadPlayer (dir : PlayerDir) : M unit :=
  files <- lift dir ;;
  ps <- get_players ;;
  let player :=
    {| ModelPlayer.name := PlayerConfig.name (fst files);
       ModelPlayer.model := PlayerConfig.model (fst files);
       ModelPlayer.index := List.length ps;
       ModelPlayer.prompt := snd files;
       ModelPlayer.template := compile (snd files) |} in
  push_player player ;;
  ps' <- get_players ;;
  t <- get_table ;;
  if GameRules.numSeats G t <? List.length ps'
  then throw (TooManyPlayers (GameRules.numSeats G t))
  else command (Call.sitDown (ModelPlayer.index player) INITIAL_CHIPS).

Fixpoint loadPlayers (playerDirs : list PlayerDir) : M unit :=
  match playerDirs with
  | [] => ret tt
  | dir :: rest => loadPlayer dir ;; loadPlayers rest
  end.

(** What a turn throws before any request is sent: the read of [name] on
    the missing player of the acting seat, what the snapshot throws, what
    the template throws. *)
Definition stops_before_decision (s : State) (e : Thrown) : Prop :=
  match nth_error (players s) (GameRules.playerToAct G (table s)) with
  | None => e = TypeError "name"
  | Some player =>
      match createTemplateData (table s) (players s) player with
      | inl e' => e = e'
      | inr d => ModelPlayer.template player d = inl e
      end
  end.

(** The body of the betting-round loop (lines 163-178).  With no player at
    the acting seat, [getModelAction] fails on [player.name] before its
    [try]. *)
Definition turn : M unit :=
  t <- get_table ;;
  ps <- get_players ;;
  let seatIndex := GameRules.playerToAct G t in
  let cards := nth_error (GameRules.holeCards G t) seatIndex in
  match nth_error ps seatIndex with
  | None => throw (TypeError "name")
  | Some player =>
      taken <- getModelAction player ;;
      logger (Event.player_action (ModelPlayer.name player) cards
                (TakenAction.action taken) (TakenAction.betSize taken)) ;;
      command (Call.actionTaken (TakenAction.action taken)
                 (TakenAction.betSize taken))
  end.

(** [while (table.isBettingRoundInProgress()) { ... }] *)
Fixpoint bettingRoundLoop (n : nat) : M unit :=
  t <- get_table ;;
  if GameRules.isBettingRoundInProgress G t then
    match n with
    | 0 => diverge
    | S n' => turn ;; bettingRoundLoop n'
    end
  else ret tt.

(** [while (table.isHandInProgress()) { ... }] (lines 160-194) *)
Fixpoint handLoop (fuel n : nat) : M unit :=
  t <- get_table ;;
  if GameRules.isHandInProgress G t then
    match n with
    | 0 => diverge
    | S n' =>
        bettingRoundLoop fuel ;;
        command Call.endBettingRound ;;
        t1 <- get_table ;;
        logger (Event.end_betting_round (GameRules.pots G t1)
                  (GameRules.communityCards G t1)) ;;
        (if GameRules.areBettingRoundsCompleted G t1 then
           command Call.showdown ;;
           t2 <- get_table ;;
           logger (Event.showdown (GameRules.winners G t2))
         else ret tt) ;;
        handLoop fuel n'
    end
  else ret tt.

(** [table.seats().filter(Boolean).length] *)
Definition occupied (t : GameRules.Table G) : nat :=
  List.length (filter truthy (GameRules.seats G t)).

(** The main game loop (lines 150-198). *)
Fixpoint gameLoop (fuel n : nat) (handIndex : nat) : M unit :=
  t <- get_table ;;
  if 1 <? occupied t then
    match n with
    | 0 => diverge
    | S n' =>
        command Call.startHand ;;
        t1 <- get_table ;;
        logger (Event.hand_start handIndex (GameRules.seats G t1)) ;;
        handLoop fuel fuel ;;
        t2 <- get_table ;;
        logger (Event.hand_end (GameRules.seats G t2)) ;;
        gameLoop fuel n' (S handIndex)
    end
  else ret tt.

(** Lines 200-202; [players[-1]] is undefined when no seat is occupied. *)
Definition announceWinner : M unit :=
  t <- get_table ;;
  ps <- get_players ;;
  match findIndex truthy (GameRules.seats G t) with
  | None => throw (TypeError "name")
  | Some i =>
      winner <- lift (name_at ps i) ;;
      logger (Event.game_end winner)
  end.

Definition main (fuel : nat) (playerDirs : list PlayerDir) : M unit :=
  loadPlayers playerDirs ;;
  t <- get_table ;;
  logger (Event.game_start (GameRules.seats G t)) ;;
  gameLoop fuel fuel 1 ;;
  announceWinner.

Definition initial : State :=
  {| table := GameRules.newTable G SMALL_BLIND BIG_BLIND;
     players := [];
     requests := 0 |}.

(** [main().catch(console.error)] from the start of the process. *)
Definition run (fuel : nat) (playerDirs : list PlayerDir)
  : Outcome unit * State * list Effect :=
  try_catch (main fuel playerDirs) console_error initial.

(** *** Reading a run *)

Definition outcome {A} (r : Outcome A * State * list Effect) : Outcome A :=
  fst (fst r).
Definition final {A} (r : Outcome A * State * list Effect) : State :=
  snd (fst r).
Definition effects {A} (r : Outcome A * State * list Effect)
  : list Effect := snd r.

End Program.

Arguments table {G} s.
Arguments players {G} s.
Arguments requests {G} s.
Arguments outcome {G A} r.
Arguments final {G A} r.
Arguments effects {G A} r.

(** The journal of a run: the events logged, oldest first. *)
Fixpoint journal (tr : list Effect) : list Event.t :=
  match tr with
  | [] => []
  | Logged e :: rest => e :: journal rest
  | _ :: rest => journal rest
  end.

(** The calls the table received, carried out or not. *)
Fixpoint calls (tr : list Effect) : list Call.t :=
  match tr with
  | [] => []
  | Command c :: rest => c :: calls rest
  | Refused c _ :: rest => c :: calls rest
  | _ :: rest => calls rest
  end.

(** The number of hands the table started. *)
Fixpoint started (tr : list Effect) : nat :=
  match tr with
  | [] => 0
  | Command Call.startHand :: rest => S (started rest)
  | _ :: rest => started rest
  end.

(** The actions the table was asked to apply. *)
Fixpoint applied (cs : list Call.t) : list (Action * option number) :=
  match cs with
  | [] => []
  | Call.actionTaken a b :: rest => (a, b) :: applied rest
  | _ :: rest => applied rest
  end.

(** The actions of the [player_action] records. *)
Fixpoint acted (j : list Event.t) : list (Action * option number) :=
  match j with
  | [] => []
  | Event.player_action _ _ a b :: rest => (a, b) :: acted rest
  | _ :: rest => acted rest
  end.

(** The [handIndex] of the [hand_start] records. *)
Fixpoint hand_indices (j : list Event.t) : list nat :=
  match j with
  | [] => []
  | Event.hand_start i _ :: rest => i :: hand_indices rest
  | _ :: rest => hand_indices rest
  end.

(** The winners named by [game_end] records. *)
Fixpoint named_winners (j : list Event.t) : list string :=
  match j with
  | [] => []
  | Event.game_end w :: rest => w :: named_winners rest
  | _ :: rest => named_winners rest
  end.

(** Effects of the loading phase: calls of [sitDown] only. *)
Definition is_seating (x : Effect) : bool :=
  match x with
  | Command (Call.sitDown _ _) => true
  | Refused (Call.sitDown _ _) _ => true
  | _ => false
  end.

(** Effects of a decision: the request and the error written on the
    console. *)
Definition is_decision (x : Effect) : bool :=
  match x with
  | Requested _ => true
  | ConsoleError _ => true
  | _ => false
  end.

(** Effects of a turn: those of a decision, the [player_action] record and
    the call of [actionTaken]. *)
Definition is_turn_effect (x : Effect) : bool :=
  is_decision x ||
  match x with
  | Logged (Event.player_action _ _ _ _) => true
  | Command (Call.actionTaken _ _) => true
  | Refused (Call.actionTaken _ _) _ => true
  | _ => false
  end.

(** Effects inside a hand: those of its turns and the end of its rounds. *)
Definition is_hand_effect (x : Effect) : bool :=
  is_turn_effect x ||
  match x with
  | Logged (Event.end_betting_round _ _) => true
  | Logged (Event.showdown _) => true
  | Command Call.endBettingRound => true
  | Command Call.showdown => true
  | Refused Call.endBettingRound _ => true
  | Refused Call.showdown _ => true
  | _ => false
  end.

(** Effects of the game loop: those of its hands, their start and their
    end. *)
Definition is_game_effect (x : Effect) : bool :=
  is_hand_effect x ||
  match x with
  | Logged (Event.hand_start _ _) => true
  | Logged (Event.hand_end _) => true
  | Command Call.startHand => true
  | Refused Call.startHand _ => true
  | _ => false
  end.

(** What was written on the error console. *)
Fixpoint console (tr : list Effect) : list Thrown :=
  match tr with
  | [] => []
  | ConsoleError e :: rest => e :: console rest
  | _ :: rest => console rest
  end.

(** ** A small engine to run the program on

    One table with nine seats where a hand is a single betting round with a
    single action: the seat that folds leaves the table, any other offered
    action keeps everybody seated.  It stands for no real poker; it gives the
    abstract interface an inhabitant on which runs can be evaluated. *)
Module Scripted.

Record Table := {
  seats : list (option Seat.t);
  hand : bool;
  round : bool;
  toAct : nat;
  legal : LegalActions.t;
  hole : list (option (list Card));
  pots : list Pot.t;
  community : list Card }.

Fixpoint set_nth {A} (i : nat) (x : A) (l : list A) : list A :=
  match l, i with
  | [], _ => []
  | _ :: rest, 0 => x :: rest
  | y :: rest, S j => y :: set_nth j x rest
  end.

Definition offered : LegalActions.t :=
  {| LegalActions.actions := [fold; call; raise];
     LegalActions.chipRange :=
       Some {| ChipRange.min := 100%Q; ChipRange.max := 900%Q |} |}.

Definition newTable (smallBlind bigBlind : number) : Table :=
  {| seats := repeat None 9; hand := false; round := false; toAct := 0;
     legal := offered; hole := repeat None 9; pots := [];
     community := [] |}.

Definition with_seats (t : Table) (s : list (option Seat.t)) : Table :=
  {| seats := s; hand := hand t; round := round t; toAct := toAct t;
     legal := legal t; hole := hole t; pots := pots t;
     community := community t |}.

Definition with_legal (t : Table) (L : LegalActions.t) : Table :=
  {| seats := seats t; hand := hand t; round := round t; toAct := toAct t;
     legal := L; hole := hole t; pots := pots t;
     community := community t |}.

Definition with_hole (t : Table) (h : list (option (list Card))) : Table :=
  {| seats := seats t; hand := hand t; round := round t; toAct := toAct t;
     legal := legal t; hole := h; pots := pots t;
     community := community t |}.

Definition with_phase (t : Table) (h r : bool) (who : nat) : Table :=
  {| seats := seats t; hand := h; round := r; toAct := who;
     legal := legal t; hole := hole t; pots := pots t;
     community := community t |}.

Definition sitDown (t : Table) (i : nat) (chips : number)
  : Thrown + Table :=
  match nth_error (seats t) i with
  | Some None =>
      inr (with_seats t
             (set_nth i
                (Some {| Seat.totalChips := chips; Seat.stack := chips;
                         Seat.betSize := 0%Q |})
                (seats t)))
  | _ => inl (GameRulesError "Given seat index is invalid or taken")
  end.

Definition startHand (t : Table) : Thrown + Table :=
  match findIndex truthy (seats t) with
  | Some i => inr (with_phase t true true i)
  | None => inl (GameRulesError "No players at the table")
  end.

Definition actionTaken (t : Table) (a : Action) (b : option number)
  : Thrown + Table :=
  if existsb (Action_eqb a) (LegalActions.actions (legal t)) then
    match a with
    | fold =>
        inr (with_phase (with_seats t (set_nth (toAct t) None (seats t)))
               true false (toAct t))
    | _ => inr (with_phase t true false (toAct t))
    end
  else inl (GameRulesError "Illegal action").

Definition endBettingRound (t : Table) : Thrown + Table :=
  inr (with_phase t false false (toAct t)).

Definition rules : GameRules.t :=
  {| GameRules.Table := Table;
     GameRules.newTable := newTable;
     GameRules.numSeats := fun _ => 9;
     GameRules.sitDown := sitDown;
     GameRules.seats := seats;
     GameRules.startHand := startHand;
     GameRules.isHandInProgress := hand;
     GameRules.isBettingRoundInProgress := round;
     GameRules.playerToAct := toAct;
     GameRules.legalActions := legal;
     GameRules.holeCards := hole;
     GameRules.actionTaken := actionTaken;
     GameRules.endBettingRound := endBettingRound;
     GameRules.pots := pots;
     GameRules.communityCards := community;
     GameRules.areBettingRoundsCompleted := fun _ => false;
     GameRules.showdown := fun t => inr t;
     GameRules.winners := fun _ => [];
     GameRules.roundOfBetting := fun _ => "preflop" |}.

(** A template engine that prints the player's name, and three models:
    one that is unreachable, one that answers a raise of the given size,
    one that answers a plain action. *)
Definition compile (prompt : string) (d : TemplateData.t)
  : Thrown + string :=
  inr (prompt ++ TemplateData.player_name d)%string.

Definition unreachable (n : nat) (r : Request.t) : ApiResult :=
  Rejected "connection error".

Definition tool_use (input : Json) : ContentBlock.t :=
  {| ContentBlock.type := "tool_use";
     ContentBlock.props :=
       [("name", JStr "take_action"); ("input", input)] |}.

Definition answers (input : Json) (n : nat) (r : Request.t) : ApiResult :=
  Resolved [tool_use input].

(** A model unreachable at the first request that answers afterwards. *)
Definition flaky (input : Json) (n : nat) (r : Request.t) : ApiResult :=
  match n with
  | 0 => Rejected "connection error"
  | S _ => Resolved [tool_use input]
  end.

Definition dir (name : string) : Thrown + (PlayerConfig.t * string) :=
  inr ({| PlayerConfig.name := name;
          PlayerConfig.model := "claude-3-5-haiku-20241022" |},
       "You are ").

Definition player (name : string) (i : nat) : ModelPlayer.t :=
  {| ModelPlayer.name := name; ModelPlayer.index := i;
     ModelPlayer.prompt := "You are ";
     ModelPlayer.model := "claude-3-5-haiku-20241022";
     ModelPlayer.template := compile "You are " |}.

Definition funded (chips : number) : option Seat.t :=
  Some {| Seat.totalChips := chips; Seat.stack := chips;
          Seat.betSize := 0%Q |}.

Definition card (r s : string) : Card := {| rank := r; suit := s |}.

(** Two players in a hand, seat 0 to act, one pot they both contest. *)
Definition heads_up : Table :=
  {| seats := [funded 1000%Q; funded 1000%Q];
     hand := true; round := true; toAct := 0; legal := offered;
     hole := [Some [card "A" "spades"; card "K" "spades"];
              Some [card "2" "clubs"; card "7" "diamonds"]];
     pots := [ {| Pot.size := 150%Q; Pot.eligiblePlayers := [0; 1] |} ];
     community := [] |}.

Definition roster : list ModelPlayer.t := [player "A" 0; player "B" 1].

(** The state of the program at [t], the roster loaded, after [n]
    requests. *)
Definition at_table (t : Table) (n : nat) : State rules :=
  {| table := t : GameRules.Table rules; players := roster; requests := n |}.

End Scripted.

(** ** More sample data *)
Module Samples.

(** A text block, as the model sends before or instead of a tool call. *)
Definition text (t : string) : ContentBlock.t :=
  {| ContentBlock.type := "text"; ContentBlock.props := [("text", JStr t)] |}.

(** A model that always answers with the given blocks. *)
Definition says (content : list ContentBlock.t) (n : nat) (r : Request.t)
  : ApiResult :=
  Resolved content.

Definition raise_to (q : number) : Json :=
  JObj [("action", JStr "raise"); ("betSize", JNum q);
        ("comment", JStr "pot odds")].

Definition plain (action : string) : Json := JObj [("action", JStr action)].

(** The state in which seat 0 is to act, heads up. *)
Definition acting : State Scripted.rules :=
  Scripted.at_table Scripted.heads_up 0.

(** A player whose template calls [join] on a value the data lacks, and
    the state in which this player is to act. *)
Definition stuck : ModelPlayer.t :=
  {| ModelPlayer.name := "A"; ModelPlayer.index := 0;
     ModelPlayer.prompt := "{{join notes}}";
     ModelPlayer.model := "claude-3-5-haiku-20241022";
     ModelPlayer.template := fun _ => inl (TypeError "join") |}.

Definition stuck_acting : State Scripted.rules :=
  {| table := Scripted.heads_up : GameRules.Table Scripted.rules;
     players := [stuck; Scripted.player "B" 1];
     requests := 0 |}.

(** The state in which seat 0 is to act with [check] and [bet] offered and
    [fold] not. *)
Definition cannot_fold : State Scripted.rules :=
  Scripted.at_table
    (Scripted.with_legal Scripted.heads_up
       {| LegalActions.actions := [check; bet];
          LegalActions.chipRange :=
            Some {| ChipRange.min := 100%Q; ChipRange.max := 900%Q |} |})
    0.

(** The text of a start time. *)
Definition started_at : string := "2026-11-02T14:37:05".

End Samples.

(** ** More readers of traces *)

(** The requests sent to the model, oldest first. *)
Fixpoint sent (tr : list Effect) : list Request.t :=
  match tr with
  | [] => []
  | Requested r :: rest => r :: sent rest
  | _ :: rest => sent rest
  end.

(** The commands the table carried out. *)
Fixpoint carried (tr : list Effect) : list Call.t :=
  match tr with
  | [] => []
  | Command c :: rest => c :: carried rest
  | _ :: rest => carried rest
  end.

Definition is_fold (x : Action * option number) : bool :=
  match fst x with
  | fold => true
  | _ => false
  end.

Definition is_round_end (e : Event.t) : bool :=
  match e with
  | Event.end_betting_round _ _ => true
  | _ => false
  end.

Definition is_showdown (e : Event.t) : bool :=
  match e with
  | Event.showdown _ => true
  | _ => false
  end.

Definition is_hand_start (e : Event.t) : bool :=
  match e with
  | Event.hand_start _ _ => true
  | _ => false
  end.

Definition is_hand_end (e : Event.t) : bool :=
  match e with
  | Event.hand_end _ => true
  | _ => false
  end.

Definition ends_round (c : Call.t) : bool :=
  match c with
  | Call.endBettingRound => true
  | _ => false
  end.

Definition shows_down (c : Call.t) : bool :=
  match c with
  | Call.showdown => true
  | _ => false
  end.

(** The table reached from [t] by the commands [cs], one after the other
    ([None] when the table refuses one of them). *)
Fixpoint replay (G : GameRules.t) (cs : list Call.t) (t : GameRules.Table G)
  : option (GameRules.Table G) :=
  match cs with
  | [] => Some t
  | c :: rest =>
      match perform G c t with
      | inr t' => replay G rest t'
      | inl _ => None
      end
  end.

(** [count p l]: how many entries of [l] satisfy [p]. *)
Definition count {A} (p : A -> bool) (l : list A) : nat :=
  List.length (filter p l).

(** ** The game file (lines 78-83)

    The start time comes as the text of [new Date().toISOString()], which
    is made of characters below 256; among those a line ends at a line feed
    or a carriage return. *)

Definition is_line_terminator (c : ascii) : bool :=
  (c =? "010")%char || (c =? "013")%char.

(** [s.replace(/:/g, "-")] *)
Fixpoint replace_colons (s : string) : string :=
  match s with
  | EmptyString => EmptyString
  | String c rest =>
      String (if (c =? ":")%char then "-"%char else c) (replace_colons rest)
  end.

(** What is left of a line once [.+] has run to its end. *)
Fixpoint skip_line (s : string) : string :=
  match s with
  | EmptyString => EmptyString
  | String c rest => if is_line_terminator c then s else skip_line rest
  end.

(** [s.replace(/\..+/, "")]: the first dot that has a character after it on
    its line goes, with the rest of that line. *)
Fixpoint strip_fraction (s : string) : string :=
  match s with
  | EmptyString => EmptyString
  | String c rest =>
      if (c =? ".")%char then
        match rest with
        | EmptyString => String c EmptyString
        | String d _ =>
            if is_line_terminator d then String c (strip_fraction rest)
            else skip_line rest
        end
      else String c (strip_fraction rest)
  end.

Definition gameFilePrefix (iso : string) : string :=
  strip_fraction (replace_colons iso).

Definition gameFile (iso : string) : string :=
  ("./games/" ++ gameFilePrefix iso ++ ".json")%string.

(** Whether the character [c] occurs in [s]. *)
Fixpoint occurs (c : ascii) (s : string) : bool :=
  match s with
  | EmptyString => false
  | String d rest => (c =? d)%char || occurs c rest
  end.

(** Whether [s] is a single line. *)
Fixpoint one_line (s : string) : bool :=
  match s with
  | EmptyString => true
  | String c rest => negb (is_line_terminator c) && one_line rest
  end.

(** * Properties *)

(** ** Validation *)

Lemma parse_action_offered offered v a :
  parse_action offered v = inr a -> In a offered.
Proof.
  unfold parse_action.
  destruct v as [[ | | | s | | ] | ]; try discriminate.
  destruct (find _ offered) as [a' | ] eqn:Hfind; try discriminate.
  intros H; injection H as <-.
  now apply find_some in Hfind.
Qed.

Lemma parse_betSize_within r v b :
  parse_betSize r v = inr (Some b) ->
  (ChipRange.min r <= b /\ b <= ChipRange.max r)%Q.
Proof.
  unfold parse_betSize.
  destruct v as [[ | | q | | | ] | ]; try discriminate.
  destruct (Qle_bool (ChipRange.min r) q) eqn:Hlo;
    destruct (Qle_bool q (ChipRange.max r)) eqn:Hhi; simpl; try discriminate.
  intros H; injection H as <-.
  split; now apply Qle_bool_iff.
Qed.

Lemma parse_betSize_outside r q :
  (q < ChipRange.min r \/ ChipRange.max r < q)%Q ->
  exists i rest, parse_betSize r (Some (JNum q)) = inl (i :: rest).
Proof.
  intros Hout. unfold parse_betSize.
  destruct (Qle_bool (ChipRange.min r) q) eqn:Hlo;
    destruct (Qle_bool q (ChipRange.max r)) eqn:Hhi; simpl; eauto.
  apply Qle_bool_iff in Hlo, Hhi.
  destruct Hout as [H | H]; [apply Qlt_not_le in H | apply Qlt_not_le in H];
    contradiction.
Qed.

Lemma parse_takenAction_accepts L input A :
  parse_takenAction L input = inr A ->
  In (TakenAction.action A) (LegalActions.actions L) /\
  (forall b, TakenAction.betSize A = Some b ->
     exists r, LegalActions.chipRange L = Some r /\
               (ChipRange.min r <= b /\ b <= ChipRange.max r)%Q).
Proof.
  unfold parse_takenAction.
  destruct input as [[ | | | | | entries] | ]; try discriminate.
  destruct (parse_action _ _) as [ia | a] eqn:Ha.
  - destruct (LegalActions.chipRange L); discriminate.
  - apply parse_action_offered in Ha.
    destruct (LegalActions.chipRange L) as [r | ].
    + destruct (parse_betSize r _) as [ib | b] eqn:Hb; try discriminate.
      intros H; injection H as <-; simpl. split; [assumption | ].
      intros b' ->. exists r. split; [reflexivity | ].
      now apply parse_betSize_within in Hb.
    + intros H; injection H as <-; simpl. split; [assumption | discriminate].
Qed.

Lemma parse_takenAction_outside L r entries q :
  LegalActions.chipRange L = Some r ->
  field "betSize" entries = Some (JNum q) ->
  (q < ChipRange.min r \/ ChipRange.max r < q)%Q ->
  exists issues, parse_takenAction L (Some (JObj entries))
                 = inl (ZodError issues).
Proof.
  intros Hr Hb Hout. unfold parse_takenAction. rewrite Hr, Hb.
  destruct (parse_betSize_outside r q Hout) as (i & rest & ->).
  destruct (parse_action _ _); eauto.
Qed.

Lemma parse_takenAction_refusal L input e :
  parse_takenAction L input = inl e -> exists issues, e = ZodError issues.
Proof.
  unfold parse_takenAction.
  destruct input as [[ | | | | | entries] | ];
    try (intros H; injection H as <-; eauto).
  destruct (LegalActions.chipRange L) as [r | ].
  - destruct (parse_action _ _); destruct (parse_betSize _ _);
      intros H; try discriminate; injection H as <-; eauto.
  - destruct (parse_action _ _); intros H; try discriminate;
      injection H as <-; eauto.
Qed.

(** ** Reading traces *)

Lemma journal_app a b : journal (a ++ b) = journal a ++ journal b.
Proof.
  induction a as [ | x a' IH]; simpl; [reflexivity | ].
  destruct x; simpl; rewrite ?IH; reflexivity.
Qed.

Lemma calls_app a b : calls (a ++ b) = calls a ++ calls b.
Proof.
  induction a as [ | x a' IH]; simpl; [reflexivity | ].
  destruct x; simpl; rewrite ?IH; reflexivity.
Qed.

Lemma started_app a b : started (a ++ b) = started a + started b.
Proof.
  induction a as [ | x a' IH]; simpl; [reflexivity | ].
  destruct x as [ | | [ | | | | ] | | ]; simpl; rewrite ?IH; reflexivity.
Qed.

Lemma applied_app a b : applied (a ++ b) = applied a ++ applied b.
Proof.
  induction a as [ | x a' IH]; simpl; [reflexivity | ].
  destruct x; simpl; rewrite ?IH; reflexivity.
Qed.

Lemma acted_app a b : acted (a ++ b) = acted a ++ acted b.
Proof.
  induction a as [ | x a' IH]; simpl; [reflexivity | ].
  destruct x; simpl; rewrite ?IH; reflexivity.
Qed.

Lemma hand_indices_app a b :
  hand_indices (a ++ b) = hand_indices a ++ hand_indices b.
Proof.
  induction a as [ | x a' IH]; simpl; [reflexivity | ].
  destruct x; simpl; rewrite ?IH; reflexivity.
Qed.

Lemma named_winners_app a b :
  named_winners (a ++ b) = named_winners a ++ named_winners b.
Proof.
  induction a as [ | x a' IH]; simpl; [reflexivity | ].
  destruct x; simpl; rewrite ?IH; reflexivity.
Qed.

Lemma forallb_weaken {A} (P Q : A -> bool) l :
  (forall x, P x = true -> Q x = true) ->
  forallb P l = true -> forallb Q l = true.
Proof.
  intros HPQ H. apply forallb_forall. intros x Hx. apply HPQ.
  now apply (proj1 (forallb_forall P l) H).
Qed.

Lemma decision_is_turn_effect x :
  is_decision x = true -> is_turn_effect x = true.
Proof. unfold is_turn_effect. now intros ->. Qed.

Lemma turn_is_hand_effect x :
  is_turn_effect x = true -> is_hand_effect x = true.
Proof. unfold is_hand_effect. now intros ->. Qed.

Lemma hand_is_game_effect x :
  is_hand_effect x = true -> is_game_effect x = true.
Proof. unfold is_game_effect. now intros ->. Qed.

Lemma hand_effects_silent tr :
  forallb is_hand_effect tr = true ->
  hand_indices (journal tr) = [] /\ started tr = 0.
Proof.
  induction tr as [ | x tr IH]; simpl; [now split | ].
  intros H. apply andb_prop in H as [Hx Htr]. specialize (IH Htr).
  destruct x as [[ | | | | | | ] | | [ | | | | ] | | ];
    simpl in *; try discriminate; exact IH.
Qed.

Lemma game_effects_silent tr :
  forallb is_game_effect tr = true -> named_winners (journal tr) = [].
Proof.
  induction tr as [ | x tr IH]; simpl; [reflexivity | ].
  intros H. apply andb_prop in H as [Hx Htr]. specialize (IH Htr).
  destruct x as [[ | | | | | | ] | | | | ];
    simpl in *; try discriminate; exact IH.
Qed.

Lemma seating_silent tr :
  forallb is_seating tr = true -> journal tr = [] /\ started tr = 0.
Proof.
  induction tr as [ | x tr IH]; simpl; [now split | ].
  intros H. apply andb_prop in H as [Hx Htr]. specialize (IH Htr).
  destruct x as [ | | [ | | | | ] | [ | | | | ] | ];
    simpl in *; try discriminate; exact IH.
Qed.

Lemma decision_silent tr :
  forallb is_decision tr = true -> journal tr = [] /\ calls tr = [].
Proof.
  induction tr as [ | x tr IH]; simpl; [now split | ].
  intros H. apply andb_prop in H as [Hx Htr]. specialize (IH Htr).
  destruct x; simpl in *; try discriminate; exact IH.
Qed.

(** ** One decision *)

Section Decisions.

Variable G : GameRules.t.
Variable anthropic : nat -> Request.t -> ApiResult.

Lemma callModel_run player prompt L s :
  callModel G anthropic player prompt L s =
  (match anthropic (requests s) (request_for player prompt L) with
   | Rejected d => Threw (ApiError d)
   | Resolved content =>
       match find is_take_action content with
       | None => Threw NoToolUse
       | Some block =>
           match parse_takenAction L
                   (field "input" (ContentBlock.props block)) with
           | inl e => Threw e
           | inr A => Returned A
           end
       end
   end,
   after_request G s,
   [Requested (request_for player prompt L)]).
Proof.
  unfold callModel, bind, messages_create.
  destruct (anthropic _ _) as [d | content]; [reflexivity | ].
  destruct (find is_take_action content) as [block | ]; [ | reflexivity].
  destruct (parse_takenAction _ _); reflexivity.
Qed.

Lemma callModel_returns_or_throws player prompt L s :
  outcome (callModel G anthropic player prompt L s) <> Diverged.
Proof.
  rewrite callModel_run. unfold outcome; simpl.
  destruct (anthropic _ _) as [d | content]; [discriminate | ].
  destruct (find _ _); [ | discriminate].
  destruct (parse_takenAction _ _); discriminate.
Qed.

Lemma getModelAction_ok player s d prompt A :
  createTemplateData G (table s) (players s) player = inr d ->
  ModelPlayer.template player d = inr prompt ->
  outcome (callModel G anthropic player prompt
             (GameRules.legalActions G (table s)) s) = Returned A ->
  getModelAction G anthropic player s =
  (Returned A, after_request G s,
   [Requested (request_for player prompt
                 (GameRules.legalActions G (table s)))]).
Proof.
  intros Hd Hp Hcall. unfold getModelAction, bind, get_table, get_players.
  simpl. rewrite Hd. simpl. rewrite Hp. simpl. unfold try_catch.
  rewrite callModel_run in Hcall |- *. unfold outcome in Hcall.
  simpl in Hcall. rewrite Hcall. reflexivity.
Qed.

Lemma getModelAction_failed player s d prompt e :
  createTemplateData G (table s) (players s) player = inr d ->
  ModelPlayer.template player d = inr prompt ->
  outcome (callModel G anthropic player prompt
             (GameRules.legalActions G (table s)) s) = Threw e ->
  getModelAction G anthropic player s =
  (Returned fallback, after_request G s,
   [Requested (request_for player prompt
                 (GameRules.legalActions G (table s)));
    ConsoleError e]).
Proof.
  intros Hd Hp Hcall. unfold getModelAction, bind, get_table, get_players.
  simpl. rewrite Hd. simpl. rewrite Hp. simpl. unfold try_catch.
  rewrite callModel_run in Hcall |- *. unfold outcome in Hcall.
  simpl in Hcall. rewrite Hcall. reflexivity.
Qed.

(** What the snapshot or the template throws leaves [getModelAction] with
    nothing sent and nothing written. *)
Lemma getModelAction_unprepared player s e :
  (createTemplateData G (table s) (players s) player = inl e \/
   exists d,
     createTemplateData G (table s) (players s) player = inr d /\
     ModelPlayer.template player d = inl e) ->
  getModelAction G anthropic player s = (Threw e, s, []).
Proof.
  unfold getModelAction, bind, get_table, get_players. simpl.
  intros [Hd | (d & Hd & Hp)]; rewrite Hd; simpl; [reflexivity | ].
  rewrite Hp. reflexivity.
Qed.

(** C2 (amended): an action accepted by validation is one of the offered
    actions; a bet size in it, whatever the action, was offered a chip range
    and lies within it; when no chip range is offered the accepted action
    carries no bet size and a supplied one is ignored, not refused. *)
Theorem callModel_accepts_within_offer player prompt L s A :
  outcome (callModel G anthropic player prompt L s) = Returned A ->
  In (TakenAction.action A) (LegalActions.actions L) /\
  (forall b, TakenAction.betSize A = Some b ->
     exists r, LegalActions.chipRange L = Some r /\
               (ChipRange.min r <= b /\ b <= ChipRange.max r)%Q) /\
  (LegalActions.chipRange L = None ->
     TakenAction.betSize A = None /\
     forall entries v,
       parse_takenAction L (Some (JObj (("betSize", v) :: entries)))
       = parse_takenAction L (Some (JObj entries))).
Proof.
  intros Hcall. rewrite callModel_run in Hcall. unfold outcome in Hcall.
  simpl in Hcall.
  destruct (anthropic _ _) as [d | content]; [discriminate | ].
  destruct (find _ _) as [block | ]; [ | discriminate].
  destruct (parse_takenAction _ _) as [e | A'] eqn:Hparse; [discriminate | ].
  injection Hcall as ->.
  destruct (parse_takenAction_accepts _ _ _ Hparse) as [Hin Hsize].
  split; [exact Hin | split; [exact Hsize | ]].
  intros Hnone. split.
  - destruct (TakenAction.betSize A) as [b | ] eqn:Hb; [ | reflexivity].
    destruct (Hsize b eq_refl) as (r & Hr & _). congruence.
  - intros entries v. unfold parse_takenAction. rewrite Hnone.
    reflexivity.
Qed.

(** C4: a proposed bet size outside the offered chip range is refused by
    the schema, the refusal is caught, and the decision is the fallback,
    which carries no bet size: nothing is clamped to a bound. *)
Theorem out_of_range_betSize_falls_back
  player s d prompt r content block entries q :
  createTemplateData G (table s) (players s) player = inr d ->
  ModelPlayer.template player d = inr prompt ->
  LegalActions.chipRange (GameRules.legalActions G (table s)) = Some r ->
  anthropic (requests s)
    (request_for player prompt
       (GameRules.legalActions G (table s))) = Resolved content ->
  find is_take_action content = Some block ->
  field "input" (ContentBlock.props block) = Some (JObj entries) ->
  field "betSize" entries = Some (JNum q) ->
  (q < ChipRange.min r \/ ChipRange.max r < q)%Q ->
  (exists issues,
     outcome (callModel G anthropic player prompt
                (GameRules.legalActions G (table s)) s)
     = Threw (ZodError issues) /\
     console (effects (getModelAction G anthropic player s))
     = [ZodError issues]) /\
  outcome (getModelAction G anthropic player s)
  = Returned {| TakenAction.action := fold; TakenAction.betSize := None |}.
Proof.
  intros Hd Hp Hr Hres Hblock Hinput Hbet Hout.
  destruct (parse_takenAction_outside _ r entries q Hr Hbet Hout)
    as [issues Hparse].
  assert (Hcall :
    outcome (callModel G anthropic player prompt
               (GameRules.legalActions G (table s)) s)
    = Threw (ZodError issues)).
  { rewrite callModel_run. unfold outcome; simpl.
    rewrite Hres, Hblock, Hinput, Hparse. reflexivity. }
  rewrite (getModelAction_failed _ _ _ _ _ Hd Hp Hcall).
  split; [exists issues; split; [exact Hcall | reflexivity] | reflexivity].
Qed.

End Decisions.

(** C2, as stated, fails: with a chip range offered, [fold] sent with a bet
    size in range is accepted and keeps the bet size, and [fold] sent with a
    bet size out of range is refused. *)
Lemma fold_with_betSize_not_ignored :
  let kept := {| TakenAction.action := fold;
                 TakenAction.betSize := Some 500%Q |} in
  let s := {| table := Scripted.heads_up : GameRules.Table Scripted.rules;
              players := Scripted.roster; requests := 0 |} in
  outcome (callModel Scripted.rules
             (Scripted.answers
                (JObj [("action", JStr "fold"); ("betSize", JNum 500%Q)]))
             (Scripted.player "A" 0) "prompt" Scripted.offered s)
  = Returned kept /\
  ~ (TakenAction.betSize kept <> None <->
     TakenAction.action kept = bet \/ TakenAction.action kept = raise) /\
  outcome (callModel Scripted.rules
             (Scripted.answers
                (JObj [("action", JStr "fold"); ("betSize", JNum 5000%Q)]))
             (Scripted.player "A" 0) "prompt" Scripted.offered s)
  = Threw (ZodError [ {| code := too_big; path := ["betSize"] |} ]).
Proof.
  simpl. split; [reflexivity | split; [ | reflexivity]].
  intros [H _]. destruct H as [H | H]; discriminate.
Qed.

Lemma callModel_accepts_within_offer_witness :
  let A := {| TakenAction.action := raise;
              TakenAction.betSize := Some 500%Q |} in
  In (TakenAction.action A) (LegalActions.actions Scripted.offered) /\
  (forall b, TakenAction.betSize A = Some b ->
     exists r, LegalActions.chipRange Scripted.offered = Some r /\
               (ChipRange.min r <= b /\ b <= ChipRange.max r)%Q) /\
  (LegalActions.chipRange Scripted.offered = None ->
     TakenAction.betSize A = None /\
     forall entries v,
       parse_takenAction Scripted.offered
         (Some (JObj (("betSize", v) :: entries)))
       = parse_takenAction Scripted.offered (Some (JObj entries))).
Proof.
  apply (callModel_accepts_within_offer Scripted.rules
           (Scripted.answers
              (JObj [("action", JStr "raise"); ("betSize", JNum 500%Q)]))
           (Scripted.player "A" 0) "prompt" Scripted.offered
           {| table := Scripted.heads_up : GameRules.Table Scripted.rules;
              players := Scripted.roster; requests := 0 |}).
  reflexivity.
Defined.

(** ** Sequencing *)

Section Binds.

Variable G : GameRules.t.

Lemma bind_returned {A B} (m : M G A) (k : A -> M G B) s b s' tr :
  bind G m k s = (Returned b, s', tr) ->
  exists a s1 tr1 tr2,
    m s = (Returned a, s1, tr1) /\
    k a s1 = (Returned b, s', tr2) /\
    tr = tr1 ++ tr2.
Proof.
  unfold bind.
  destruct (m s) as [[[a | e | ] s1] tr1]; try discriminate.
  destruct (k a s1) as [[o2 s2] tr2] eqn:Hk.
  intros H; injection H as -> -> <-. now exists a, s1, tr1, tr2.
Qed.

Lemma bind_get_table {B} (k : GameRules.Table G -> M G B) s :
  bind G (get_table G) k s = k (table s) s.
Proof.
  unfold bind, get_table. destruct (k (table s) s) as [[o s2] tr2].
  reflexivity.
Qed.

Lemma bind_get_players {B} (k : list ModelPlayer.t -> M G B) s :
  bind G (get_players G) k s = k (players s) s.
Proof.
  unfold bind, get_players. destruct (k (players s) s) as [[o s2] tr2].
  reflexivity.
Qed.

End Binds.

(** ** One turn *)

Section Turns.

Variable G : GameRules.t.
Variable anthropic : nat -> Request.t -> ApiResult.

Lemma turn_run s player taken pre :
  nth_error (players s) (GameRules.playerToAct G (table s)) = Some player ->
  getModelAction G anthropic player s
  = (Returned taken, after_request G s, pre) ->
  turn G anthropic s =
  match GameRules.actionTaken G (table s) (TakenAction.action taken)
          (TakenAction.betSize taken) with
  | inr t' =>
      (Returned tt, with_table G (after_request G s) t',
       pre ++ [Logged
                 (Event.player_action (ModelPlayer.name player)
                    (nth_error (GameRules.holeCards G (table s))
                       (GameRules.playerToAct G (table s)))
                    (TakenAction.action taken) (TakenAction.betSize taken));
               Command (Call.actionTaken (TakenAction.action taken)
                          (TakenAction.betSize taken))])
  | inl e =>
      (Threw e, after_request G s,
       pre ++ [Logged
                 (Event.player_action (ModelPlayer.name player)
                    (nth_error (GameRules.holeCards G (table s))
                       (GameRules.playerToAct G (table s)))
                    (TakenAction.action taken) (TakenAction.betSize taken));
               Refused (Call.actionTaken (TakenAction.action taken)
                          (TakenAction.betSize taken)) e])
  end.
Proof.
  intros Hplayer Hget. unfold turn, bind, get_table, get_players. simpl.
  rewrite Hplayer, Hget. unfold logger, emit, command, perform. simpl.
  destruct (GameRules.actionTaken G (table s) _ _); reflexivity.
Qed.

Lemma turn_stops s e :
  stops_before_decision G s e -> turn G anthropic s = (Threw e, s, []).
Proof.
  unfold stops_before_decision, turn, bind, get_table, get_players. simpl.
  destruct (nth_error (players s) (GameRules.playerToAct G (table s)))
    as [player | ]; [ | now intros ->].
  intros Hstop.
  rewrite (getModelAction_unprepared G anthropic player s e); [reflexivity | ].
  destruct (createTemplateData G (table s) (players s) player) as [e' | d];
    [left; now subst | right; now exists d].
Qed.

(** The three ways a turn goes: it stops before any request, it plays the
    model's answer, or it plays the fallback after a failed call. *)
Lemma turn_shapes s :
  (exists e,
     stops_before_decision G s e /\ turn G anthropic s = (Threw e, s, [])) \/
  (exists player d prompt taken pre,
     nth_error (players s) (GameRules.playerToAct G (table s)) = Some player /\
     createTemplateData G (table s) (players s) player = inr d /\
     ModelPlayer.template player d = inr prompt /\
     ((pre = [Requested
                (request_for player prompt
                   (GameRules.legalActions G (table s)))] /\
       outcome (callModel G anthropic player prompt
                  (GameRules.legalActions G (table s)) s) = Returned taken) \/
      (exists e,
         pre = [Requested
                  (request_for player prompt
                     (GameRules.legalActions G (table s)));
                ConsoleError e] /\
         taken = fallback /\
         outcome (callModel G anthropic player prompt
                    (GameRules.legalActions G (table s)) s) = Threw e)) /\
     getModelAction G anthropic player s
     = (Returned taken, after_request G s, pre) /\
     turn G anthropic s =
     match GameRules.actionTaken G (table s) (TakenAction.action taken)
             (TakenAction.betSize taken) with
     | inr t' =>
         (Returned tt, with_table G (after_request G s) t',
          pre ++ [Logged
                    (Event.player_action (ModelPlayer.name player)
                       (nth_error (GameRules.holeCards G (table s))
                          (GameRules.playerToAct G (table s)))
                       (TakenAction.action taken)
                       (TakenAction.betSize taken));
                  Command (Call.actionTaken (TakenAction.action taken)
                             (TakenAction.betSize taken))])
     | inl e =>
         (Threw e, after_request G s,
          pre ++ [Logged
                    (Event.player_action (ModelPlayer.name player)
                       (nth_error (GameRules.holeCards G (table s))
                          (GameRules.playerToAct G (table s)))
                       (TakenAction.action taken)
                       (TakenAction.betSize taken));
                  Refused (Call.actionTaken (TakenAction.action taken)
                             (TakenAction.betSize taken)) e])
     end).
Proof.
  destruct (nth_error (players s) (GameRules.playerToAct G (table s)))
    as [player | ] eqn:Hplayer.
  2:{ left. exists (TypeError "name").
      assert (Hstop : stops_before_decision G s (TypeError "name"))
        by (unfold stops_before_decision; now rewrite Hplayer).
      split; [exact Hstop | now apply turn_stops]. }
  destruct (createTemplateData G (table s) (players s) player)
    as [e | d] eqn:Hd.
  { left. exists e.
    assert (Hstop : stops_before_decision G s e)
      by (unfold stops_before_decision; now rewrite Hplayer, Hd).
    split; [exact Hstop | now apply turn_stops]. }
  destruct (ModelPlayer.template player d) as [e | prompt] eqn:Hp.
  { left. exists e.
    assert (Hstop : stops_before_decision G s e)
      by (unfold stops_before_decision; now rewrite Hplayer, Hd).
    split; [exact Hstop | now apply turn_stops]. }
  right. exists player, d, prompt.
  destruct (outcome (callModel G anthropic player prompt
                       (GameRules.legalActions G (table s)) s))
    as [A | e | ] eqn:Hcall.
  - pose proof (getModelAction_ok _ _ _ _ _ _ _ Hd Hp Hcall) as Hget.
    exists A. eexists. split; [reflexivity | ]. split; [exact Hd | ].
    split; [exact Hp | ]. split; [left; split; reflexivity | ].
    split; [exact Hget | apply (turn_run _ _ _ _ Hplayer Hget)].
  - pose proof (getModelAction_failed _ _ _ _ _ _ _ Hd Hp Hcall) as Hget.
    exists fallback. eexists. split; [reflexivity | ]. split; [exact Hd | ].
    split; [exact Hp | ]. split; [right; exists e; repeat split | ].
    split; [exact Hget | apply (turn_run _ _ _ _ Hplayer Hget)].
  - now apply callModel_returns_or_throws in Hcall.
Qed.

(** Whatever a turn does, the table is asked to apply what the journal
    records, in the same order. *)
Lemma turn_applies_what_it_logs s :
  applied (calls (effects (turn G anthropic s)))
  = acted (journal (effects (turn G anthropic s))).
Proof.
  destruct (turn_shapes s)
    as [(e & _ & ->)
       | (player & d & prompt & taken & pre & _ & _ & _ & Hpre & _ & ->)];
    [reflexivity | ].
  destruct Hpre as [[-> _] | (e & -> & -> & _)];
    destruct (GameRules.actionTaken G _ _ _); reflexivity.
Qed.

Lemma bettingRoundLoop_applies_what_it_logs n s :
  applied (calls (effects (bettingRoundLoop G anthropic n s)))
  = acted (journal (effects (bettingRoundLoop G anthropic n s))).
Proof.
  revert s. induction n as [ | n IH]; intros s; simpl;
    unfold bind, get_table; simpl;
    destruct (GameRules.isBettingRoundInProgress G (table s));
    try reflexivity.
  pose proof (turn_applies_what_it_logs s) as Hturn.
  destruct (turn G anthropic s) as [[[[] | e | ] s1] tr1];
    unfold effects in *; simpl in *; try exact Hturn.
  specialize (IH s1).
  destruct (bettingRoundLoop G anthropic n s1) as [[o2 s2] tr2].
  simpl in *.
  now rewrite calls_app, journal_app, applied_app, acted_app, Hturn, IH.
Qed.

(** While a betting round is in progress the loop takes a turn and goes
    on from the state the turn leaves. *)
Lemma bettingRoundLoop_takes_the_turn n s :
  GameRules.isBettingRoundInProgress G (table s) = true ->
  bettingRoundLoop G anthropic (S n) s
  = bind G (turn G anthropic) (fun _ => bettingRoundLoop G anthropic n) s.
Proof.
  intros Hround. simpl. rewrite bind_get_table. now rewrite Hround.
Qed.

Lemma bettingRoundLoop_returned n s s' tr :
  bettingRoundLoop G anthropic n s = (Returned tt, s', tr) ->
  GameRules.isBettingRoundInProgress G (table s') = false.
Proof.
  revert s s' tr. induction n as [ | n IH]; intros s s' tr H;
    simpl in H; rewrite bind_get_table in H;
    destruct (GameRules.isBettingRoundInProgress G (table s)) eqn:Hround;
    try discriminate;
    try (injection H as <- _; exact Hround).
  apply bind_returned in H as (u & s1 & tr1 & tr2 & _ & H & _).
  now apply IH in H.
Qed.

(** What leaves the loop was thrown by the table on [actionTaken], or
    before the request of the turn in which the loop stopped. *)
Lemma bettingRoundLoop_threw n s e s' tr :
  bettingRoundLoop G anthropic n s = (Threw e, s', tr) ->
  (exists pre a b, tr = pre ++ [Refused (Call.actionTaken a b) e]) \/
  stops_before_decision G s' e.
Proof.
  revert s s' tr. induction n as [ | n IH]; intros s s' tr H;
    simpl in H; rewrite bind_get_table in H;
    destruct (GameRules.isBettingRoundInProgress G (table s));
    try discriminate.
  unfold bind in H.
  destruct (turn_shapes s)
    as [(e0 & Hstop & Hturn)
       | (player & d & prompt & taken & pre & _ & _ & _ & _ & _ & Hturn)];
    rewrite Hturn in H.
  - injection H as <- <- _. now right.
  - destruct (GameRules.actionTaken G (table s) _ _) as [e0 | t'].
    + injection H as <- _ <-. left.
      eexists (pre ++ [_]), _, _. now rewrite <- app_assoc.
    + destruct (bettingRoundLoop G anthropic n _) as [[o2 s2] tr2] eqn:Hrest.
      injection H as -> -> <-.
      apply IH in Hrest as [(pre' & a & b & ->) | Hstop]; [left | now right].
      eexists (_ ++ pre'), a, b. now rewrite app_assoc.
Qed.

(** C3 (amended): on a turn whose acting seat is a player of the roster and
    whose snapshot and prompt are made, the decision always comes back as one
    taken action, from the model or from the fallback; the journal records
    that action once and the table is asked once to apply it; the turn ends
    as the table's answer to that call dictates.  While a betting round is in
    progress the loop takes such a turn, and it returns only when no round is
    in progress.  What leaves the loop was thrown by the table on the apply
    call or before the request of a turn, never by the decision call; a
    turn that stops before its request sends nothing, records nothing and
    leaves the state as it was; the table is asked to apply exactly the
    actions the journal records. *)
Theorem one_decision_one_apply_per_turn s player d prompt :
  nth_error (players s) (GameRules.playerToAct G (table s)) = Some player ->
  createTemplateData G (table s) (players s) player = inr d ->
  ModelPlayer.template player d = inr prompt ->
  (exists taken,
     outcome (getModelAction G anthropic player s) = Returned taken /\
     acted (journal (effects (turn G anthropic s)))
     = [(TakenAction.action taken, TakenAction.betSize taken)] /\
     applied (calls (effects (turn G anthropic s)))
     = [(TakenAction.action taken, TakenAction.betSize taken)] /\
     match GameRules.actionTaken G (table s) (TakenAction.action taken)
             (TakenAction.betSize taken) with
     | inr t' =>
         outcome (turn G anthropic s) = Returned tt /\
         table (final (turn G anthropic s)) = t'
     | inl e => outcome (turn G anthropic s) = Threw e
     end) /\
  (forall n s0,
     GameRules.isBettingRoundInProgress G (table s0) = true ->
     bettingRoundLoop G anthropic (S n) s0
     = bind G (turn G anthropic) (fun _ => bettingRoundLoop G anthropic n) s0) /\
  (forall n s0 s' tr,
     bettingRoundLoop G anthropic n s0 = (Returned tt, s', tr) ->
     GameRules.isBettingRoundInProgress G (table s') = false) /\
  (forall n s0 e s' tr,
     bettingRoundLoop G anthropic n s0 = (Threw e, s', tr) ->
     (exists pre a b, tr = pre ++ [Refused (Call.actionTaken a b) e]) \/
     stops_before_decision G s' e) /\
  (forall s0 e,
     stops_before_decision G s0 e ->
     turn G anthropic s0 = (Threw e, s0, [])) /\
  (forall n s0,
     applied (calls (effects (bettingRoundLoop G anthropic n s0)))
     = acted (journal (effects (bettingRoundLoop G anthropic n s0)))).
Proof.
  intros Hplayer Hd Hp.
  split; [ | split; [intros n s0; apply bettingRoundLoop_takes_the_turn | ] ].
  2:{ split; [intros n s0 s' tr; apply bettingRoundLoop_returned | ].
      split; [intros n s0 e s' tr; apply bettingRoundLoop_threw | ].
      split; [intros s0 e; apply turn_stops | ].
      intros n s0. apply bettingRoundLoop_applies_what_it_logs. }
  destruct (turn_shapes s)
    as [(e & Hstop & _)
       | (player' & d' & prompt' & taken & pre & Hplayer' & _ & _ & Hpre
          & Hget & ->)].
  { unfold stops_before_decision in Hstop.
    rewrite Hplayer, Hd, Hp in Hstop. discriminate. }
  assert (player' = player) by congruence. subst player'.
  exists taken. rewrite Hget. split; [reflexivity | ].
  destruct Hpre as [[-> _] | (e & -> & -> & _)];
    destruct (GameRules.actionTaken G _ _ _);
    unfold effects, outcome, final; simpl; auto.
Qed.

End Turns.

(** C1 (amended): when the decision call fails, whatever the failure and
    whatever actions are offered, the decision is [fold] with no bet size.
    The error goes to the console, the journal records [fold] for the player
    and the table is asked to apply [fold]: the turn is, after the console
    record, the turn of an answer [A] returned by the model, taken at
    [A] = [fold]; and it ends in the state and with the records of any turn
    in which the model answered [fold] itself. *)
Theorem failed_decision_plays_fold (G : GameRules.t)
  (anthropic : nat -> Request.t -> ApiResult) s player d prompt e :
  nth_error (players s) (GameRules.playerToAct G (table s)) = Some player ->
  createTemplateData G (table s) (players s) player = inr d ->
  ModelPlayer.template player d = inr prompt ->
  outcome (callModel G anthropic player prompt
             (GameRules.legalActions G (table s)) s) = Threw e ->
  outcome (getModelAction G anthropic player s)
  = Returned {| TakenAction.action := fold; TakenAction.betSize := None |} /\
  console (effects (turn G anthropic s)) = [e] /\
  journal (effects (turn G anthropic s))
  = [Event.player_action (ModelPlayer.name player)
       (nth_error (GameRules.holeCards G (table s))
          (GameRules.playerToAct G (table s)))
       fold None] /\
  calls (effects (turn G anthropic s)) = [Call.actionTaken fold None] /\
  turn G anthropic s
  = match GameRules.actionTaken G (table s) fold None with
    | inr t' =>
        (Returned tt, with_table G (after_request G s) t',
         [Requested (request_for player prompt
                       (GameRules.legalActions G (table s)));
          ConsoleError e;
          Logged (Event.player_action (ModelPlayer.name player)
                    (nth_error (GameRules.holeCards G (table s))
                       (GameRules.playerToAct G (table s)))
                    fold None);
          Command (Call.actionTaken fold None)])
    | inl e' =>
        (Threw e', after_request G s,
         [Requested (request_for player prompt
                       (GameRules.legalActions G (table s)));
          ConsoleError e;
          Logged (Event.player_action (ModelPlayer.name player)
                    (nth_error (GameRules.holeCards G (table s))
                       (GameRules.playerToAct G (table s)))
                    fold None);
          Refused (Call.actionTaken fold None) e'])
    end /\
  (forall (anthropic' : nat -> Request.t -> ApiResult) A,
     outcome (callModel G anthropic' player prompt
                (GameRules.legalActions G (table s)) s) = Returned A ->
     turn G anthropic' s
     = match GameRules.actionTaken G (table s) (TakenAction.action A)
               (TakenAction.betSize A) with
       | inr t' =>
           (Returned tt, with_table G (after_request G s) t',
            [Requested (request_for player prompt
                          (GameRules.legalActions G (table s)));
             Logged (Event.player_action (ModelPlayer.name player)
                       (nth_error (GameRules.holeCards G (table s))
                          (GameRules.playerToAct G (table s)))
                       (TakenAction.action A) (TakenAction.betSize A));
             Command (Call.actionTaken (TakenAction.action A)
                        (TakenAction.betSize A))])
       | inl e' =>
           (Threw e', after_request G s,
            [Requested (request_for player prompt
                          (GameRules.legalActions G (table s)));
             Logged (Event.player_action (ModelPlayer.name player)
                       (nth_error (GameRules.holeCards G (table s))
                          (GameRules.playerToAct G (table s)))
                       (TakenAction.action A) (TakenAction.betSize A));
             Refused (Call.actionTaken (TakenAction.action A)
                        (TakenAction.betSize A)) e'])
       end) /\
  (forall anthropic' : nat -> Request.t -> ApiResult,
     outcome (callModel G anthropic' player prompt
                (GameRules.legalActions G (table s)) s) = Returned fallback ->
     outcome (turn G anthropic s) = outcome (turn G anthropic' s) /\
     final (turn G anthropic s) = final (turn G anthropic' s) /\
     journal (effects (turn G anthropic s))
     = journal (effects (turn G anthropic' s)) /\
     calls (effects (turn G anthropic s))
     = calls (effects (turn G anthropic' s))).
Proof.
  intros Hplayer Hd Hp Hfail.
  pose proof (getModelAction_failed _ _ _ _ _ _ _ Hd Hp Hfail) as Hget.
  rewrite (turn_run G anthropic _ _ _ _ Hplayer Hget), Hget.
  split; [reflexivity | ].
  split; [destruct (GameRules.actionTaken G (table s) _ _); reflexivity | ].
  split; [destruct (GameRules.actionTaken G (table s) _ _); reflexivity | ].
  split; [destruct (GameRules.actionTaken G (table s) _ _); reflexivity | ].
  split; [reflexivity | ]. split.
  - intros anthropic' A Hret.
    pose proof (getModelAction_ok _ _ _ _ _ _ _ Hd Hp Hret) as Hget'.
    now rewrite (turn_run G anthropic' _ _ _ _ Hplayer Hget').
  - intros anthropic' Hfold.
    pose proof (getModelAction_ok _ _ _ _ _ _ _ Hd Hp Hfold) as Hget'.
    rewrite (turn_run G anthropic' _ _ _ _ Hplayer Hget').
    destruct (GameRules.actionTaken G (table s) _ _);
      unfold effects, outcome, final; simpl; repeat split; reflexivity.
Qed.

(** C6 (amended): a failed decision is caught by one handler, which writes
    the error as it was thrown on the console and nothing in the journal.
    On the console a call the model's client rejects leaves the client's
    error, and an answer that is refused leaves the error of the missing
    tool call or the schema's error with its issues, so the two records
    differ.  In the journal both turns leave the one record of a [fold],
    the same as a turn in which the model answered [fold], and they send
    the same call to the table and end in the same state. *)
Theorem failures_differ_on_the_console_only (G : GameRules.t)
  (transport refusing : nat -> Request.t -> ApiResult)
  s player d prompt detail content e2 :
  nth_error (players s) (GameRules.playerToAct G (table s)) = Some player ->
  createTemplateData G (table s) (players s) player = inr d ->
  ModelPlayer.template player d = inr prompt ->
  transport (requests s)
    (request_for player prompt (GameRules.legalActions G (table s)))
  = Rejected detail ->
  refusing (requests s)
    (request_for player prompt (GameRules.legalActions G (table s)))
  = Resolved content ->
  outcome (callModel G refusing player prompt
             (GameRules.legalActions G (table s)) s) = Threw e2 ->
  console (effects (turn G transport s)) = [ApiError detail] /\
  console (effects (turn G refusing s)) = [e2] /\
  (e2 = NoToolUse \/ exists issues, e2 = ZodError issues) /\
  console (effects (turn G transport s))
  <> console (effects (turn G refusing s)) /\
  journal (effects (turn G transport s))
  = [Event.player_action (ModelPlayer.name player)
       (nth_error (GameRules.holeCards G (table s))
          (GameRules.playerToAct G (table s)))
       fold None] /\
  journal (effects (turn G refusing s))
  = journal (effects (turn G transport s)) /\
  calls (effects (turn G refusing s)) = calls (effects (turn G transport s)) /\
  final (turn G refusing s) = final (turn G transport s) /\
  outcome (turn G refusing s) = outcome (turn G transport s) /\
  (forall choosing : nat -> Request.t -> ApiResult,
     outcome (callModel G choosing player prompt
                (GameRules.legalActions G (table s)) s) = Returned fallback ->
     journal (effects (turn G choosing s))
     = journal (effects (turn G transport s)) /\
     console (effects (turn G choosing s)) = []).
Proof.
  intros Hplayer Hd Hp Hrej Hres Hfail2.
  assert (Hfail1 :
    outcome (callModel G transport player prompt
               (GameRules.legalActions G (table s)) s)
    = Threw (ApiError detail)).
  { rewrite callModel_run. unfold outcome; simpl. now rewrite Hrej. }
  assert (Hkind : e2 = NoToolUse \/ exists issues, e2 = ZodError issues).
  { rewrite callModel_run in Hfail2. unfold outcome in Hfail2.
    simpl in Hfail2. rewrite Hres in Hfail2.
    destruct (find is_take_action content) as [block | ].
    - destruct (parse_takenAction _ _) as [e | A] eqn:Hparse;
        [ | discriminate].
      injection Hfail2 as ->. right.
      now apply parse_takenAction_refusal in Hparse.
    - injection Hfail2 as <-. now left. }
  pose proof (getModelAction_failed _ _ _ _ _ _ _ Hd Hp Hfail1) as Hget1.
  pose proof (getModelAction_failed _ _ _ _ _ _ _ Hd Hp Hfail2) as Hget2.
  rewrite (turn_run G transport _ _ _ _ Hplayer Hget1).
  rewrite (turn_run G refusing _ _ _ _ Hplayer Hget2).
  assert (Hdiff : [ApiError detail] <> [e2]).
  { destruct Hkind as [-> | [issues ->]]; discriminate. }
  repeat match goal with |- _ /\ _ => split end;
    try exact Hkind;
    try (destruct (GameRules.actionTaken G (table s) _ _);
         unfold effects, outcome, final; simpl;
         first [reflexivity | exact Hdiff]).
  intros choosing Hfold.
  pose proof (getModelAction_ok _ _ _ _ _ _ _ Hd Hp Hfold) as Hget3.
  rewrite (turn_run G choosing _ _ _ _ Hplayer Hget3).
  destruct (GameRules.actionTaken G (table s) _ _);
    unfold effects; simpl; split; reflexivity.
Qed.

(** ** The snapshot *)

Section Snapshots.

Variable G : GameRules.t.

Lemma filteri_from_beyond {A} n (l : list A) k :
  n <= k -> filteri_from (fun _ i => i <? n) k l = [].
Proof.
  revert k. induction l as [ | x l IH]; intros k Hk; simpl; [reflexivity | ].
  destruct (Nat.ltb_spec k n); [lia | ]. apply IH. lia.
Qed.

Lemma stacks_from ps (l : list (option Seat.t)) k :
  exists stacks,
    traversei_from (stack_view ps) k
      (filteri_from (fun _ i => i <? List.length ps) k l) = inr stacks /\
    forall j seat p,
      nth_error l j = Some seat ->
      nth_error ps (k + j) = Some p ->
      nth_error stacks j = Some (rendered (ModelPlayer.name p) seat).
Proof.
  revert k. induction l as [ | x l IH]; intros k; simpl.
  - exists []. split; [reflexivity | ]. intros [ | j]; discriminate.
  - destruct (Nat.ltb_spec k (List.length ps)) as [Hlt | Hge].
    + destruct (nth_error ps k) as [pk | ] eqn:Hpk;
        [ | apply nth_error_None in Hpk; lia].
      destruct (IH (S k)) as (stacks & Hrun & Hnth).
      exists (rendered (ModelPlayer.name pk) x :: stacks).
      simpl. unfold stack_view at 1, name_at. rewrite Hpk, Hrun.
      split; [reflexivity | ].
      intros [ | j] seat p Hseat Hp; simpl in *.
      * rewrite Nat.add_0_r in Hp. congruence.
      * apply (Hnth j seat p Hseat). now rewrite Nat.add_succ_r in Hp.
    + rewrite filteri_from_beyond by lia.
      exists []. split; [reflexivity | ].
      intros j seat p _ Hp.
      assert (nth_error ps (k + j) = None) by (apply nth_error_None; lia).
      congruence.
Qed.

(** C7 (amended): every seat of the roster is rendered after what its entry
    in the table's seat list is.  An empty entry gives status "eliminated"
    with zero chips and no stack or bet; an entry that holds a seat gives
    status "active" with the chips, stack and bet of that seat, whatever they
    are. *)
Theorem seat_status_follows_occupancy t ps player d i p seat :
  createTemplateData G t ps player = inr d ->
  nth_error ps i = Some p ->
  nth_error (GameRules.seats G t) i = Some seat ->
  exists view,
    nth_error (TemplateData.playerStacks d) i = Some view /\
    PlayerStack.name view = ModelPlayer.name p /\
    match seat with
    | None =>
        PlayerStack.status view = "eliminated" /\
        PlayerStack.totalChips view = 0%Q /\
        PlayerStack.stack view = None /\
        PlayerStack.betSize view = None
    | Some st =>
        PlayerStack.status view = "active" /\
        PlayerStack.totalChips view = Seat.totalChips st /\
        PlayerStack.stack view = Some (Seat.stack st) /\
        PlayerStack.betSize view = Some (Seat.betSize st)
    end.
Proof.
  intros Hd Hp Hseat. unfold createTemplateData in Hd.
  destruct (traverse _ _) as [e | pots]; [discriminate | ].
  destruct (playerStacks_of ps (GameRules.seats G t)) as [e | stacks] eqn:Hs;
    [discriminate | ].
  injection Hd as <-. simpl.
  unfold playerStacks_of, traversei, filteri in Hs.
  destruct (stacks_from ps (GameRules.seats G t) 0) as (stacks' & Hrun & Hnth).
  rewrite Hrun in Hs. injection Hs as ->.
  exists (rendered (ModelPlayer.name p) seat).
  split; [now apply Hnth | ].
  destruct seat; simpl; repeat split; reflexivity.
Qed.

(** C9: the template data of a player holds the hole cards found at the
    player's own seat index and no others; two tables that agree on that
    entry and on everything that is not hole cards give the player the same
    template data. *)
Theorem other_hole_cards_do_not_show t t' ps player :
  GameRules.seats G t = GameRules.seats G t' ->
  GameRules.pots G t = GameRules.pots G t' ->
  GameRules.communityCards G t = GameRules.communityCards G t' ->
  GameRules.legalActions G t = GameRules.legalActions G t' ->
  GameRules.roundOfBetting G t = GameRules.roundOfBetting G t' ->
  nth_error (GameRules.holeCards G t) (ModelPlayer.index player)
  = nth_error (GameRules.holeCards G t') (ModelPlayer.index player) ->
  createTemplateData G t ps player = createTemplateData G t' ps player /\
  (forall d, createTemplateData G t ps player = inr d ->
     TemplateData.holeCards d
     = nth_error (GameRules.holeCards G t) (ModelPlayer.index player)).
Proof.
  intros Hseats Hpots Hcommunity Hlegal Hround Hhole.
  unfold createTemplateData.
  rewrite Hseats, Hpots, Hcommunity, Hlegal, Hround, Hhole.
  split; [reflexivity | ].
  destruct (traverse _ _); [discriminate | ].
  destruct (playerStacks_of _ _); [discriminate | ].
  intros d H; injection H as <-. reflexivity.
Qed.

End Snapshots.

(** C7, as stated, fails: a seat that the table still lists with no chips is
    rendered "active", not "eliminated". *)
Lemma chipless_seat_rendered_active :
  let t := Scripted.with_seats Scripted.heads_up
             [Scripted.funded 0%Q; Scripted.funded 1000%Q] in
  exists d view,
    createTemplateData Scripted.rules t Scripted.roster
      (Scripted.player "B" 1) = inr d /\
    nth_error (GameRules.seats Scripted.rules t) 0
    = Some (Some {| Seat.totalChips := 0%Q; Seat.stack := 0%Q;
                    Seat.betSize := 0%Q |}) /\
    nth_error (TemplateData.playerStacks d) 0 = Some view /\
    PlayerStack.status view = "active" /\
    PlayerStack.status view <> "eliminated".
Proof.
  simpl. eexists. eexists.
  split; [reflexivity | ]. split; [reflexivity | ].
  split; [reflexivity | ]. split; [reflexivity | discriminate].
Qed.

Lemma seat_status_follows_occupancy_witness :
  exists view,
    nth_error
      [rendered "A" None; rendered "B" (Scripted.funded 1000%Q)] 0
    = Some view /\
    PlayerStack.name view = "A" /\
    PlayerStack.status view = "eliminated" /\
    PlayerStack.totalChips view = 0%Q /\
    PlayerStack.stack view = None /\
    PlayerStack.betSize view = None.
Proof.
  exact (seat_status_follows_occupancy Scripted.rules
           (Scripted.with_seats Scripted.heads_up
              [None; Scripted.funded 1000%Q])
           Scripted.roster (Scripted.player "B" 1) _ 0
           (Scripted.player "A" 0) None eq_refl eq_refl eq_refl).
Defined.

Lemma other_hole_cards_do_not_show_witness :
  createTemplateData Scripted.rules Scripted.heads_up Scripted.roster
    (Scripted.player "A" 0)
  = createTemplateData Scripted.rules
      (Scripted.with_hole Scripted.heads_up
         [Some [Scripted.card "A" "spades"; Scripted.card "K" "spades"];
          Some [Scripted.card "Q" "hearts"; Scripted.card "Q" "clubs"]])
      Scripted.roster (Scripted.player "A" 0).
Proof.
  apply (other_hole_cards_do_not_show Scripted.rules Scripted.heads_up
           (Scripted.with_hole Scripted.heads_up
              [Some [Scripted.card "A" "spades"; Scripted.card "K" "spades"];
               Some [Scripted.card "Q" "hearts"; Scripted.card "Q" "clubs"]])
           Scripted.roster (Scripted.player "A" 0));
    reflexivity.
Defined.

(** ** Whole runs *)

Section Runs.

Variable G : GameRules.t.
Variable anthropic : nat -> Request.t -> ApiResult.
Variable compile : string -> TemplateData.t -> Thrown + string.

Lemma bind_effects {A B} (P : Effect -> bool) (m : M G A) (k : A -> M G B) s :
  forallb P (effects (m s)) = true ->
  (forall a s', forallb P (effects (k a s')) = true) ->
  forallb P (effects (bind G m k s)) = true.
Proof.
  unfold bind, effects. intros Hm Hk.
  destruct (m s) as [[[a | e | ] s1] tr1]; simpl in *; try exact Hm.
  specialize (Hk a s1). destruct (k a s1) as [[o2 s2] tr2]; simpl in *.
  rewrite forallb_app, Hm, Hk. reflexivity.
Qed.

Lemma command_effects (P : Effect -> bool) c s :
  P (Command c) = true ->
  (forall e, P (Refused c e) = true) ->
  forallb P (effects (command G c s)) = true.
Proof.
  intros Hdone Hrefused. unfold command, effects.
  destruct (perform G c (table s)) as [e | t']; simpl;
    now rewrite ?Hdone, ?Hrefused.
Qed.

Lemma turn_effects s :
  forallb is_turn_effect (effects (turn G anthropic s)) = true.
Proof.
  destruct (turn_shapes G anthropic s)
    as [(e & _ & ->)
       | (player & d & prompt & taken & pre & _ & _ & _ & Hpre & _ & ->)];
    [reflexivity | ].
  destruct Hpre as [[-> _] | (e & -> & -> & _)];
    destruct (GameRules.actionTaken G _ _ _); reflexivity.
Qed.

Lemma bettingRoundLoop_effects n s :
  forallb is_hand_effect (effects (bettingRoundLoop G anthropic n s)) = true.
Proof.
  revert s. induction n as [ | n IH]; intros s; simpl;
    (apply bind_effects; [reflexivity | ]); intros t s';
    destruct (GameRules.isBettingRoundInProgress G t); try reflexivity.
  apply bind_effects; [ | intros; apply IH].
  apply (forallb_weaken _ _ _ turn_is_hand_effect), turn_effects.
Qed.

Lemma handLoop_effects fuel n s :
  forallb is_hand_effect (effects (handLoop G anthropic fuel n s)) = true.
Proof.
  revert s. induction n as [ | n IH]; intros s; simpl;
    (apply bind_effects; [reflexivity | ]); intros t s';
    destruct (GameRules.isHandInProgress G t); try reflexivity.
  apply bind_effects; [apply bettingRoundLoop_effects | intros _ s1].
  apply bind_effects; [now apply command_effects | intros _ s2].
  apply bind_effects; [reflexivity | intros t1 s3].
  apply bind_effects; [reflexivity | intros _ s4].
  apply bind_effects; [ | intros; apply IH].
  destruct (GameRules.areBettingRoundsCompleted G t1); [ | reflexivity].
  apply bind_effects; [now apply command_effects | intros _ s5].
  apply bind_effects; [reflexivity | intros t2 s6]. reflexivity.
Qed.

Lemma gameLoop_effects fuel n h s :
  forallb is_game_effect (effects (gameLoop G anthropic fuel n h s)) = true.
Proof.
  revert h s. induction n as [ | n IH]; intros h s; simpl;
    (apply bind_effects; [reflexivity | ]); intros t s';
    destruct (1 <? occupied G t); try reflexivity.
  apply bind_effects; [now apply command_effects | intros _ s1].
  apply bind_effects; [reflexivity | intros t1 s2].
  apply bind_effects; [reflexivity | intros _ s3].
  apply bind_effects;
    [apply (forallb_weaken _ _ _ hand_is_game_effect), handLoop_effects
    | intros _ s4].
  apply bind_effects; [reflexivity | intros t2 s5].
  apply bind_effects; [reflexivity | intros; apply IH].
Qed.

(** *** Loading the roster *)

Lemma loadPlayer_spec dir s :
  forallb is_seating (effects (loadPlayer G compile dir s)) = true /\
  outcome (loadPlayer G compile dir s) <> Diverged /\
  (forall s' tr,
     loadPlayer G compile dir s = (Returned tt, s', tr) ->
     List.length (players s') = S (List.length (players s)) /\
     List.length (players s') <= GameRules.numSeats G (table s)).
Proof.
  unfold loadPlayer, bind, lift, get_players, get_table, push_player,
    throw, ret, command, perform, effects, outcome.
  destruct dir as [e | files]; simpl.
  - repeat split; discriminate.
  - rewrite length_app; simpl.
    destruct (Nat.ltb_spec (GameRules.numSeats G (table s))
                (List.length (players s) + 1)) as [Hlt | Hge]; simpl.
    + repeat split; discriminate.
    + destruct (GameRules.sitDown G (table s) _ _) as [e | t']; simpl.
      * repeat split; discriminate.
      * split; [reflexivity | split; [discriminate | ]].
        intros s' tr H; injection H as <- _. simpl.
        rewrite length_app; simpl. lia.
Qed.

Lemma loadPlayers_effects dirs s :
  forallb is_seating (effects (loadPlayers G compile dirs s)) = true.
Proof.
  revert s. induction dirs as [ | dir dirs IH]; intros s; simpl;
    [reflexivity | ].
  apply bind_effects; [apply loadPlayer_spec | intros; apply IH].
Qed.

Lemma loadPlayers_overflow dirs s :
  dirs <> [] ->
  (forall t, GameRules.numSeats G t
             < List.length (players s) + List.length dirs) ->
  exists e, outcome (loadPlayers G compile dirs s) = Threw e.
Proof.
  revert s. induction dirs as [ | dir dirs IH]; intros s Hne Hseats;
    [contradiction | ].
  simpl. unfold bind.
  destruct (loadPlayer_spec dir s) as (_ & Hterm & Hret).
  destruct (loadPlayer G compile dir s) as [[[[] | e | ] s1] tr1] eqn:Hload.
  - destruct (Hret s1 tr1 eq_refl) as [Hlen Hfit].
    destruct dirs as [ | dir' dirs].
    + specialize (Hseats (table s)). simpl in Hseats. lia.
    + destruct (IH s1) as [e He]; [discriminate | | ].
      * intros t. specialize (Hseats t). simpl in *. lia.
      * unfold outcome in *.
        destruct (loadPlayers G compile (dir' :: dirs) s1) as [[o2 s2] tr2].
        simpl in *. subst o2. now exists e.
  - now exists e.
  - now elim Hterm.
Qed.

(** C8: with more player directories than the table ever has seats, [main]
    throws while it loads the roster: nothing is in the journal, and the
    table received calls to [sitDown] only. *)
Theorem too_many_players_is_fatal fuel playerDirs :
  (forall t, GameRules.numSeats G t < List.length playerDirs) ->
  (exists e,
     outcome (main G anthropic compile fuel playerDirs (initial G))
     = Threw e) /\
  journal (effects (main G anthropic compile fuel playerDirs (initial G)))
  = [] /\
  forallb is_seating
    (effects (main G anthropic compile fuel playerDirs (initial G))) = true.
Proof.
  intros Hseats.
  destruct (loadPlayers_overflow playerDirs (initial G)) as [e He].
  - intros ->. specialize (Hseats (table (initial G))). simpl in Hseats. lia.
  - exact Hseats.
  - pose proof (loadPlayers_effects playerDirs (initial G)) as Hload.
    unfold main, bind, outcome, effects in *.
    destruct (loadPlayers G compile playerDirs (initial G))
      as [[o s1] tr1]. simpl in *. subst o. simpl.
    split; [now exists e | ]. split; [ | exact Hload].
    now apply seating_silent in Hload.
Qed.

(** *** The game loop *)

Lemma gameLoop_hand_indices fuel n h s o s' tr :
  gameLoop G anthropic fuel n h s = (o, s', tr) ->
  hand_indices (journal tr) = seq h (started tr).
Proof.
  revert h s o s' tr. induction n as [ | n IH]; intros h s o s' tr H;
    simpl in H; unfold bind, get_table, command, logger, emit in H;
    simpl in H; destruct (1 <? occupied G (table s));
    try (injection H as <- <- <-; reflexivity).
  destruct (GameRules.startHand G (table s)) as [e | t'];
    [injection H as <- <- <-; reflexivity | ].
  pose proof (handLoop_effects fuel fuel (with_table G s t')) as Hhand.
  apply hand_effects_silent in Hhand as [Hj Hs]. unfold effects in Hj, Hs.
  destruct (handLoop G anthropic fuel fuel (with_table G s t'))
    as [[[[] | e | ] s2] trh]; simpl in *;
    try (injection H as <- <- <-; simpl; now rewrite Hj, Hs).
  destruct (gameLoop G anthropic fuel n (S h) s2) as [[o3 s3] tr3] eqn:Hrest.
  apply IH in Hrest. injection H as <- <- <-. simpl.
  rewrite journal_app, hand_indices_app, started_app, Hj, Hs. simpl.
  now rewrite Hrest.
Qed.

Lemma main_hand_indices fuel playerDirs o s' tr :
  main G anthropic compile fuel playerDirs (initial G) = (o, s', tr) ->
  hand_indices (journal tr) = seq 1 (started tr).
Proof.
  intros H.
  pose proof (loadPlayers_effects playerDirs (initial G)) as Hload.
  apply seating_silent in Hload as [Hj Hs]. unfold effects in Hj, Hs.
  unfold main, bind, get_table, logger, emit in H.
  destruct (loadPlayers G compile playerDirs (initial G))
    as [[[[] | e | ] s1] tr1]; simpl in *;
    try (injection H as <- <- <-; now rewrite Hj, Hs).
  destruct (gameLoop G anthropic fuel fuel 1 s1)
    as [[[[] | e | ] s2] tr2] eqn:Hloop;
    apply gameLoop_hand_indices in Hloop;
    try (injection H as <- <- <-;
         rewrite journal_app, hand_indices_app, started_app, Hj, Hs;
         exact Hloop).
  destruct (announceWinner G s2) as [[o3 s3] tr3] eqn:Hend.
  assert (Hquiet : hand_indices (journal tr3) = [] /\ started tr3 = 0).
  { unfold announceWinner, bind, get_table, get_players, lift, throw, ret,
      logger, emit in Hend. simpl in Hend.
    destruct (findIndex truthy (GameRules.seats G (table s2)));
      [destruct (name_at (players s2) _) | ];
      injection Hend as <- <- <-; now split. }
  destruct Hquiet as [Hj3 Hs3]. injection H as <- <- <-.
  rewrite journal_app, hand_indices_app, started_app, Hj, Hs. simpl.
  rewrite journal_app, hand_indices_app, started_app, Hj3, Hs3.
  now rewrite app_nil_r, Nat.add_0_r.
Qed.

(** C10: in the journal of any run, however far it gets, the [handIndex]
    fields of the [hand_start] records are 1, 2, 3, ... and there are as
    many of them as hands the table started. *)
Theorem hand_start_numbers_the_hands fuel playerDirs :
  hand_indices
    (journal (effects (main G anthropic compile fuel playerDirs (initial G))))
  = seq 1
      (started (effects (main G anthropic compile fuel playerDirs
                           (initial G)))).
Proof.
  destruct (main G anthropic compile fuel playerDirs (initial G))
    as [[o s'] tr] eqn:Hmain.
  exact (main_hand_indices _ _ _ _ _ Hmain).
Qed.

(** *** The end of the game *)

Lemma first_occupied_is_only (l : list (option Seat.t)) k i :
  List.length (filter truthy l) <= 1 ->
  findIndex_from truthy k l = Some i ->
  exists i' st,
    i = k + i' /\
    nth_error l i' = Some (Some st) /\
    forall j st', nth_error l j = Some (Some st') -> j = i'.
Proof.
  revert k. induction l as [ | x l IH]; intros k Hone Hfind;
    [discriminate | ].
  destruct x as [st | ]; simpl in *.
  - injection Hfind as <-. exists 0, st.
    split; [lia | split; [reflexivity | ]].
    intros [ | j] st' Hj; [reflexivity | ]. simpl in Hj.
    assert (Hin : In (Some st') (filter truthy l)).
    { apply filter_In. split; [now apply nth_error_In in Hj | reflexivity]. }
    destruct (filter truthy l); [contradiction | simpl in Hone; lia].
  - destruct (IH (S k) Hone Hfind) as (i' & st & -> & Hnth & Honly).
    exists (S i'), st. split; [lia | split; [exact Hnth | ]].
    intros [ | j] st' Hj; [discriminate | ].
    f_equal. now apply (Honly j st').
Qed.

Lemma gameLoop_stops fuel n h s :
  occupied G (table s) <= 1 ->
  gameLoop G anthropic fuel n h s = (Returned tt, s, []).
Proof.
  intros Hone. destruct n; simpl; unfold bind, get_table; simpl;
    destruct (Nat.ltb_spec 1 (occupied G (table s))); try lia; reflexivity.
Qed.

Lemma gameLoop_starts fuel n h s :
  1 < occupied G (table s) ->
  exists x rest,
    effects (gameLoop G anthropic fuel (S n) h s) = x :: rest /\
    (x = Command Call.startHand \/ exists e, x = Refused Call.startHand e).
Proof.
  intros Hmany.
  destruct (gameLoop G anthropic fuel (S n) h s) as [[o s'] tr] eqn:Hloop.
  simpl in Hloop. unfold bind at 1, get_table in Hloop. simpl in Hloop.
  destruct (Nat.ltb_spec 1 (occupied G (table s))); [ | lia].
  unfold bind at 1, command at 1 in Hloop. simpl in Hloop.
  destruct (GameRules.startHand G (table s)) as [e | t'].
  - injection Hloop as <- <- <-. eexists. eexists.
    split; [reflexivity | right; now exists e].
  - match type of Hloop with
    | context [bind G ?m ?k (with_table G s t')] =>
        destruct (bind G m k (with_table G s t')) as [[o2 s2] tr2]
    end.
    simpl in Hloop. injection Hloop as <- <- <-. eexists. eexists.
    split; [reflexivity | now left].
Qed.

Lemma gameLoop_returned fuel n h s s' tr :
  gameLoop G anthropic fuel n h s = (Returned tt, s', tr) ->
  occupied G (table s') <= 1.
Proof.
  revert h s s' tr. induction n as [ | n IH]; intros h s s' tr H;
    simpl in H; apply bind_returned in H as (t & s0 & tr0 & tr1 & Ht & H & _);
    injection Ht as Ht Hs0 _; subst t s0;
    destruct (Nat.ltb_spec 1 (occupied G (table s))) as [Hmany | Hone];
    try discriminate;
    try (injection H as Hs' _; subst s'; exact Hone).
  apply bind_returned in H as (u1 & s1 & pre1 & tr2 & _ & H & _).
  apply bind_returned in H as (u2 & s2 & pre2 & tr3 & _ & H & _).
  apply bind_returned in H as (u3 & s3 & pre3 & tr4 & _ & H & _).
  apply bind_returned in H as (u4 & s4 & pre4 & tr5 & _ & H & _).
  apply bind_returned in H as (u5 & s5 & pre5 & tr6 & _ & H & _).
  apply bind_returned in H as (u6 & s6 & pre6 & tr7 & _ & H & _).
  now apply IH in H.
Qed.

Lemma announceWinner_returned s s' tr :
  announceWinner G s = (Returned tt, s', tr) ->
  exists i p,
    findIndex truthy (GameRules.seats G (table s)) = Some i /\
    nth_error (players s) i = Some p /\
    s' = s /\
    tr = [Logged (Event.game_end (ModelPlayer.name p))].
Proof.
  unfold announceWinner, bind, get_table, get_players, lift, throw, ret,
    logger, emit, name_at. simpl.
  destruct (findIndex truthy (GameRules.seats G (table s))) as [i | ];
    [ | discriminate].
  destruct (nth_error (players s) i) as [p | ] eqn:Hp; [ | discriminate].
  intros H; injection H as <- <-. now exists i, p.
Qed.

(** C5 (amended): the game loop starts a hand exactly when more than one
    entry of the table's seat list holds a seat, whatever chips the seats
    hold.  A run that ends normally leaves one such entry; it is the first
    one by position and the only one, and the single [game_end] record names
    the player of the roster at its index. *)
Theorem game_ends_on_the_only_occupied_seat fuel playerDirs s' tr :
  main G anthropic compile fuel playerDirs (initial G)
  = (Returned tt, s', tr) ->
  (forall n h s,
     occupied G (table s) <= 1 ->
     gameLoop G anthropic fuel n h s = (Returned tt, s, [])) /\
  (forall n h s,
     1 < occupied G (table s) ->
     exists x rest,
       effects (gameLoop G anthropic fuel (S n) h s) = x :: rest /\
       (x = Command Call.startHand \/
        exists e, x = Refused Call.startHand e)) /\
  exists i st p,
    findIndex truthy (GameRules.seats G (table s')) = Some i /\
    nth_error (GameRules.seats G (table s')) i = Some (Some st) /\
    (forall j st',
       nth_error (GameRules.seats G (table s')) j = Some (Some st') ->
       j = i) /\
    nth_error (players s') i = Some p /\
    named_winners (journal tr) = [ModelPlayer.name p].
Proof.
  intros H.
  split; [intros; now apply gameLoop_stops | ].
  split; [intros; now apply gameLoop_starts | ].
  unfold main in H.
  apply bind_returned in H as (u1 & s1 & tr1 & tr1' & Hload & H & ->).
  apply bind_returned in H as (t1 & s2 & tr2 & tr2' & Ht & H & ->).
  injection Ht as Ht Hs2 Htr2; subst t1 s2 tr2.
  apply bind_returned in H as (u3 & s3 & tr3 & tr3' & Hlog & H & ->).
  injection Hlog as Hs3 Htr3; subst s3 tr3.
  apply bind_returned in H as ([] & s4 & tr4 & tr4' & Hloop & H & ->).
  apply announceWinner_returned in H as (i & p & Hfind & Hp & -> & ->).
  pose proof (gameLoop_returned _ _ _ _ _ _ Hloop) as Hone.
  destruct (first_occupied_is_only _ 0 i Hone Hfind)
    as (i' & st & Hi & Hnth & Honly).
  simpl in Hi. subst i'.
  exists i, st, p. repeat split; try assumption.
  pose proof (loadPlayers_effects playerDirs (initial G)) as Hseating.
  rewrite Hload in Hseating. apply seating_silent in Hseating as [Hj1 _].
  pose proof (gameLoop_effects fuel fuel 1 s1) as Hgame.
  rewrite Hloop in Hgame. apply game_effects_silent in Hgame.
  unfold effects in *. simpl in *.
  rewrite journal_app, Hj1. simpl.
  rewrite journal_app, named_winners_app, Hgame. reflexivity.
Qed.

End Runs.

(** ** The program on the small engine *)

(** C1, as stated, fails: with [check] and [bet] offered and [fold] not, a
    failed decision is still [fold], and [fold] is what the journal records
    and what the table is asked to apply. *)
Lemma fallback_folds_when_fold_is_not_offered :
  let L := {| LegalActions.actions := [check; bet];
              LegalActions.chipRange :=
                Some {| ChipRange.min := 100%Q; ChipRange.max := 900%Q |} |} in
  let s := Scripted.at_table (Scripted.with_legal Scripted.heads_up L) 0 in
  let r := turn Scripted.rules Scripted.unreachable s in
  GameRules.legalActions Scripted.rules (table s) = L /\
  ~ In fold (LegalActions.actions L) /\
  In check (LegalActions.actions L) /\
  outcome (getModelAction Scripted.rules Scripted.unreachable
             (Scripted.player "A" 0) s)
  = Returned {| TakenAction.action := fold; TakenAction.betSize := None |} /\
  acted (journal (effects r)) = [(fold, None)] /\
  applied (calls (effects r)) = [(fold, None)] /\
  acted (journal (effects r)) <> [(check, None)].
Proof.
  simpl. split; [reflexivity | ]. split.
  - intros [H | [H | []]]; discriminate.
  - split; [now left | ]. repeat split; try reflexivity. discriminate.
Qed.

Lemma failed_decision_plays_fold_witness :
  ~ In fold
      (LegalActions.actions
         (GameRules.legalActions Scripted.rules (table Samples.cannot_fold))) /\
  outcome (getModelAction Scripted.rules Scripted.unreachable
             (Scripted.player "A" 0) Samples.cannot_fold)
  = Returned {| TakenAction.action := fold; TakenAction.betSize := None |} /\
  console (effects (turn Scripted.rules Scripted.unreachable
                      Samples.cannot_fold))
  = [ApiError "connection error"] /\
  calls (effects (turn Scripted.rules Scripted.unreachable
                    Samples.cannot_fold))
  = [Call.actionTaken fold None] /\
  final (turn Scripted.rules Scripted.unreachable Samples.acting)
  = final (turn Scripted.rules (Scripted.answers (Samples.plain "fold"))
             Samples.acting).
Proof.
  pose proof (failed_decision_plays_fold Scripted.rules Scripted.unreachable
                Samples.cannot_fold (Scripted.player "A" 0) _ _
                (ApiError "connection error")
                eq_refl eq_refl eq_refl eq_refl) as H.
  pose proof (failed_decision_plays_fold Scripted.rules Scripted.unreachable
                Samples.acting (Scripted.player "A" 0) _ _
                (ApiError "connection error")
                eq_refl eq_refl eq_refl eq_refl) as H'.
  split; [intros [F | [F | []]]; discriminate F | ].
  split; [apply H | ]. split; [apply H | ]. split; [apply H | ].
  destruct H' as (_ & _ & _ & _ & _ & _ & H').
  apply (H' (Scripted.answers (Samples.plain "fold")) eq_refl).
Defined.

(** C3, as stated, fails: the template of the player to act throws when it
    is run, before the decision call and outside its handler.  No request is
    sent, no action is taken or recorded, the table is asked to apply
    nothing, and the error leaves the betting round loop with the round
    still in progress. *)
Lemma template_failure_escapes_the_turn :
  let s := Samples.stuck_acting in
  let model := Scripted.answers (Samples.plain "call") in
  GameRules.isBettingRoundInProgress Scripted.rules (table s) = true /\
  nth_error (players s) (GameRules.playerToAct Scripted.rules (table s))
  = Some Samples.stuck /\
  getModelAction Scripted.rules model Samples.stuck s
  = (Threw (TypeError "join"), s, []) /\
  turn Scripted.rules model s = (Threw (TypeError "join"), s, []) /\
  acted (journal (effects (turn Scripted.rules model s))) = [] /\
  applied (calls (effects (turn Scripted.rules model s))) = [] /\
  bettingRoundLoop Scripted.rules model 5 s
  = (Threw (TypeError "join"), s, []).
Proof.
  repeat split; reflexivity.
Qed.

Lemma one_decision_one_apply_per_turn_witness :
  let s := Samples.acting in
  let model := Scripted.answers (Samples.plain "call") in
  (exists taken,
     outcome (getModelAction Scripted.rules model (Scripted.player "A" 0) s)
     = Returned taken /\
     acted (journal (effects (turn Scripted.rules model s)))
     = [(TakenAction.action taken, TakenAction.betSize taken)] /\
     applied (calls (effects (turn Scripted.rules model s)))
     = [(TakenAction.action taken, TakenAction.betSize taken)]) /\
  bettingRoundLoop Scripted.rules model 3 s
  = bind Scripted.rules (turn Scripted.rules model)
      (fun _ => bettingRoundLoop Scripted.rules model 2) s.
Proof.
  pose proof (one_decision_one_apply_per_turn Scripted.rules
                (Scripted.answers (Samples.plain "call"))
                Samples.acting (Scripted.player "A" 0) _ _
                eq_refl eq_refl eq_refl) as [(taken & Hget & Hlog & Happly & _)
                                              (Hloop & _)].
  split; [ | exact (Hloop 2 Samples.acting eq_refl)].
  exists taken. split; [exact Hget | split; [exact Hlog | exact Happly]].
Defined.

Lemma out_of_range_betSize_falls_back_witness :
  let s := Scripted.at_table Scripted.heads_up 0 in
  let model :=
    Scripted.answers
      (JObj [("action", JStr "raise"); ("betSize", JNum 5000%Q)]) in
  LegalActions.chipRange (GameRules.legalActions Scripted.rules (table s))
  = Some {| ChipRange.min := 100%Q; ChipRange.max := 900%Q |} /\
  outcome (getModelAction Scripted.rules model (Scripted.player "A" 0) s)
  = Returned {| TakenAction.action := fold; TakenAction.betSize := None |}.
Proof.
  split; [reflexivity | ].
  eapply proj2,
    (out_of_range_betSize_falls_back Scripted.rules
       (Scripted.answers
          (JObj [("action", JStr "raise"); ("betSize", JNum 5000%Q)]))
       (Scripted.player "A" 0) (Scripted.at_table Scripted.heads_up 0));
    try reflexivity.
  right. reflexivity.
Defined.

(** C6, as stated, fails: the journal of a turn whose call is rejected by
    the client, of a turn whose answer the schema refuses and of a turn in
    which the model answers [fold] is the same single record; the kinds
    of failure differ on the console only. *)
Lemma failure_kinds_share_one_journal :
  let s := Samples.acting in
  let rejected := turn Scripted.rules Scripted.unreachable s in
  let refused :=
    turn Scripted.rules (Scripted.answers (Samples.raise_to 5000%Q)) s in
  let chosen :=
    turn Scripted.rules (Scripted.answers (Samples.plain "fold")) s in
  journal (effects rejected)
  = [Event.player_action "A"
       (Some (Some [Scripted.card "A" "spades"; Scripted.card "K" "spades"]))
       fold None] /\
  journal (effects refused) = journal (effects rejected) /\
  journal (effects chosen) = journal (effects rejected) /\
  console (effects rejected) = [ApiError "connection error"] /\
  console (effects refused)
  = [ZodError [ {| code := too_big; path := ["betSize"] |} ]] /\
  console (effects chosen) = [].
Proof.
  repeat split; reflexivity.
Qed.

Lemma failures_differ_on_the_console_only_witness :
  let s := Samples.acting in
  let rejected := turn Scripted.rules Scripted.unreachable s in
  let refused :=
    turn Scripted.rules (Scripted.answers (Samples.raise_to 5000%Q)) s in
  console (effects rejected) = [ApiError "connection error"] /\
  console (effects refused)
  = [ZodError [ {| code := too_big; path := ["betSize"] |} ]] /\
  journal (effects refused) = journal (effects rejected) /\
  final refused = final rejected.
Proof.
  pose proof (failures_differ_on_the_console_only Scripted.rules
                Scripted.unreachable
                (Scripted.answers (Samples.raise_to 5000%Q))
                Samples.acting (Scripted.player "A" 0) _ _
                "connection error" _
                (ZodError [ {| code := too_big; path := ["betSize"] |} ])
                eq_refl eq_refl eq_refl eq_refl eq_refl eq_refl)
    as (Hc1 & Hc2 & _ & _ & _ & Hj & _ & Hf & _).
  split; [exact Hc1 | ]. split; [exact Hc2 | ].
  split; [exact Hj | exact Hf].
Defined.

(** C5, as stated, fails: with an empty roster the loop stops with no seat
    occupied and no [game_end] is written; and a hand is started with two
    seats listed of which one holds no chips. *)
Lemma game_loop_counts_listed_seats_not_chips :
  let r := main Scripted.rules Scripted.unreachable Scripted.compile 5 []
             (initial Scripted.rules) in
  let s := Scripted.at_table
             (Scripted.with_seats Scripted.heads_up
                [Scripted.funded 0%Q; Scripted.funded 1000%Q]) 0 in
  occupied Scripted.rules (table (final r)) = 0 /\
  outcome r = Threw (TypeError "name") /\
  named_winners (journal (effects r)) = [] /\
  exists rest,
    effects (gameLoop Scripted.rules Scripted.unreachable 5 1 1 s)
    = Command Call.startHand :: rest.
Proof.
  simpl. repeat split. eexists. reflexivity.
Qed.

Lemma game_ends_on_the_only_occupied_seat_witness :
  let r := main Scripted.rules Scripted.unreachable Scripted.compile 5
             [Scripted.dir "A"; Scripted.dir "B"] (initial Scripted.rules) in
  outcome r = Returned tt /\
  exists i st p,
    findIndex truthy (GameRules.seats Scripted.rules (table (final r)))
    = Some i /\
    nth_error (GameRules.seats Scripted.rules (table (final r))) i
    = Some (Some st) /\
    (forall j st',
       nth_error (GameRules.seats Scripted.rules (table (final r))) j
       = Some (Some st') ->
       j = i) /\
    nth_error (players (final r)) i = Some p /\
    named_winners (journal (effects r)) = [ModelPlayer.name p].
Proof.
  intros r.
  assert (H : r = (Returned tt, final r, effects r))
    by (vm_compute; reflexivity).
  split; [vm_compute; reflexivity | ].
  exact (proj2 (proj2 (game_ends_on_the_only_occupied_seat Scripted.rules
                         Scripted.unreachable Scripted.compile 5
                         [Scripted.dir "A"; Scripted.dir "B"]
                         (final r) (effects r) H))).
Defined.

Lemma too_many_players_is_fatal_witness :
  let playerDirs :=
    map Scripted.dir ["1"; "2"; "3"; "4"; "5"; "6"; "7"; "8"; "9"; "10"] in
  GameRules.numSeats Scripted.rules (table (initial Scripted.rules))
  < List.length playerDirs /\
  journal (effects (main Scripted.rules Scripted.unreachable Scripted.compile
                      5 playerDirs (initial Scripted.rules))) = [].
Proof.
  split; [simpl; lia | ].
  apply (too_many_players_is_fatal Scripted.rules Scripted.unreachable
           Scripted.compile 5
           (map Scripted.dir
              ["1"; "2"; "3"; "4"; "5"; "6"; "7"; "8"; "9"; "10"])).
  intros t. simpl. lia.
Defined.

(** * Further properties *)

(** ** How a turn and a run unfold *)

Section Steps.

Variable G : GameRules.t.
Variable anthropic : nat -> Request.t -> ApiResult.
Variable compile : string -> TemplateData.t -> Thrown + string.

Lemma command_then_log {B} c (f : GameRules.Table G -> Event.t)
  (k : GameRules.Table G -> M G B) s :
  bind G (command G c)
    (fun _ => bind G (get_table G)
       (fun t1 => bind G (logger G (f t1)) (fun _ => k t1))) s
  = match perform G c (table s) with
    | inl e => (Threw e, s, [Refused c e])
    | inr t' =>
        match k t' (with_table G s t') with
        | (o, s2, tr2) => (o, s2, [Command c; Logged (f t')] ++ tr2)
        end
    end.
Proof.
  unfold bind, command, get_table, logger, emit.
  destruct (perform G c (table s)) as [e | t']; [reflexivity | ]. simpl.
  destruct (k t' (with_table G s t')) as [[o s2] tr2]. reflexivity.
Qed.

Lemma command_then_log_last c (f : GameRules.Table G -> Event.t) s :
  bind G (command G c)
    (fun _ => bind G (get_table G) (fun t1 => logger G (f t1))) s
  = match perform G c (table s) with
    | inl e => (Threw e, s, [Refused c e])
    | inr t' => (Returned tt, with_table G s t', [Command c; Logged (f t')])
    end.
Proof.
  unfold bind, command, get_table, logger, emit.
  destruct (perform G c (table s)) as [e | t']; reflexivity.
Qed.

(** A relation between the state before, the state after and the effects
    in between that holds of every piece of a run holds of the run. *)
Variable R : State G -> State G -> list Effect -> Prop.

Hypothesis R_nil : forall s, R s s [].
Hypothesis R_app :
  forall s s1 s2 a b, R s s1 a -> R s1 s2 b -> R s s2 (a ++ b).

Lemma bind_step {A B} (m : M G A) (k : A -> M G B) s :
  R s (final (m s)) (effects (m s)) ->
  (forall a s', R s' (final (k a s')) (effects (k a s'))) ->
  R s (final (bind G m k s)) (effects (bind G m k s)).
Proof.
  unfold bind, final, effects. intros Hm Hk.
  destruct (m s) as [[[a | e | ] s1] tr1]; simpl in Hm |- *; try exact Hm.
  specialize (Hk a s1). destruct (k a s1) as [[o2 s2] tr2].
  simpl in Hk |- *. now apply (R_app s s1 s2).
Qed.

Hypothesis R_turn :
  forall s, R s (final (turn G anthropic s)) (effects (turn G anthropic s)).

Lemma bettingRoundLoop_step n s :
  R s (final (bettingRoundLoop G anthropic n s))
    (effects (bettingRoundLoop G anthropic n s)).
Proof.
  revert s. induction n as [ | n IH]; intros s; simpl;
    (apply bind_step; [apply R_nil | ]); intros t s';
    destruct (GameRules.isBettingRoundInProgress G t); try apply R_nil.
  apply bind_step; [apply R_turn | intros; apply IH].
Qed.

Hypothesis R_refused : forall s c e, R s s [Refused c e].
Hypothesis R_round :
  forall s t',
    GameRules.endBettingRound G (table s) = inr t' ->
    R s (with_table G s t')
      [Command Call.endBettingRound;
       Logged (Event.end_betting_round (GameRules.pots G t')
                 (GameRules.communityCards G t'))].
Hypothesis R_showdown :
  forall s t',
    GameRules.showdown G (table s) = inr t' ->
    R s (with_table G s t')
      [Command Call.showdown; Logged (Event.showdown (GameRules.winners G t'))].

Lemma handLoop_step fuel n s :
  R s (final (handLoop G anthropic fuel n s))
    (effects (handLoop G anthropic fuel n s)).
Proof.
  revert s. induction n as [ | n IH]; intros s; simpl;
    (apply bind_step; [apply R_nil | ]); intros t s';
    destruct (GameRules.isHandInProgress G t); try apply R_nil.
  apply bind_step; [apply bettingRoundLoop_step | intros _ s1].
  rewrite (command_then_log Call.endBettingRound
             (fun t1 => Event.end_betting_round (GameRules.pots G t1)
                          (GameRules.communityCards G t1))).
  simpl. destruct (GameRules.endBettingRound G (table s1)) as [e | t1] eqn:Hend;
    [apply R_refused | ].
  match goal with
  | |- context [bind G ?m ?k (with_table G s1 t1)] =>
      assert (Hrest : R (with_table G s1 t1)
                        (final (bind G m k (with_table G s1 t1)))
                        (effects (bind G m k (with_table G s1 t1))));
      [ | destruct (bind G m k (with_table G s1 t1)) as [[o2 s2] tr2] ]
  end.
  - apply bind_step; [ | intros; apply IH].
    destruct (GameRules.areBettingRoundsCompleted G t1); [ | apply R_nil].
    rewrite (command_then_log_last Call.showdown
               (fun t2 => Event.showdown (GameRules.winners G t2))).
    simpl. destruct (GameRules.showdown G t1) as [e | t2] eqn:Hshow;
      [apply R_refused | now apply R_showdown].
  - unfold final, effects in Hrest |- *. simpl in Hrest |- *.
    apply (R_app _ (with_table G s1 t1) _ [_; _] tr2);
      [now apply R_round | exact Hrest].
Qed.

Hypothesis R_start :
  forall s t' h,
    GameRules.startHand G (table s) = inr t' ->
    R s (with_table G s t')
      [Command Call.startHand;
       Logged (Event.hand_start h (GameRules.seats G t'))].
Hypothesis R_hand_end :
  forall s, R s s [Logged (Event.hand_end (GameRules.seats G (table s)))].

Lemma gameLoop_step fuel n h s :
  R s (final (gameLoop G anthropic fuel n h s))
    (effects (gameLoop G anthropic fuel n h s)).
Proof.
  revert h s. induction n as [ | n IH]; intros h s; simpl;
    (apply bind_step; [apply R_nil | ]); intros t s';
    destruct (1 <? occupied G t); try apply R_nil.
  rewrite (command_then_log Call.startHand
             (fun t1 => Event.hand_start h (GameRules.seats G t1))).
  simpl. destruct (GameRules.startHand G (table s')) as [e | t1] eqn:Hstart;
    [apply R_refused | ].
  match goal with
  | |- context [bind G ?m ?k (with_table G s' t1)] =>
      assert (Hrest : R (with_table G s' t1)
                        (final (bind G m k (with_table G s' t1)))
                        (effects (bind G m k (with_table G s' t1))));
      [ | destruct (bind G m k (with_table G s' t1)) as [[o2 s2] tr2] ]
  end.
  - apply bind_step; [apply handLoop_step | intros _ s3].
    rewrite bind_get_table.
    apply bind_step; [apply R_hand_end | intros; apply IH].
  - unfold final, effects in Hrest |- *. simpl in Hrest |- *.
    apply (R_app _ (with_table G s' t1) _ [_; _] tr2);
      [now apply R_start | exact Hrest].
Qed.

Hypothesis R_load :
  forall dir s,
    R s (final (loadPlayer G compile dir s))
      (effects (loadPlayer G compile dir s)).
Hypothesis R_game_start :
  forall s, R s s [Logged (Event.game_start (GameRules.seats G (table s)))].
Hypothesis R_game_end : forall s w, R s s [Logged (Event.game_end w)].

Lemma loadPlayers_step dirs s :
  R s (final (loadPlayers G compile dirs s))
    (effects (loadPlayers G compile dirs s)).
Proof.
  revert s. induction dirs as [ | dir dirs IH]; intros s; simpl;
    [apply R_nil | ].
  apply bind_step; [apply R_load | intros; apply IH].
Qed.

Lemma announceWinner_step s :
  R s (final (announceWinner G s)) (effects (announceWinner G s)).
Proof.
  unfold announceWinner. rewrite bind_get_table, bind_get_players.
  destruct (findIndex truthy (GameRules.seats G (table s))) as [i | ];
    [ | apply R_nil].
  apply bind_step; [ | intros; apply R_game_end].
  destruct (name_at (players s) i); apply R_nil.
Qed.

Lemma main_step fuel playerDirs s :
  R s (final (main G anthropic compile fuel playerDirs s))
    (effects (main G anthropic compile fuel playerDirs s)).
Proof.
  unfold main.
  apply bind_step; [apply loadPlayers_step | intros _ s1].
  rewrite bind_get_table.
  apply bind_step; [apply R_game_start | intros _ s2].
  apply bind_step; [apply gameLoop_step | intros; apply announceWinner_step].
Qed.

End Steps.

(** ** What validation lets through *)

Lemma action_name_inj a b : action_name a = action_name b -> a = b.
Proof. destruct a, b; simpl; intros H; try reflexivity; discriminate. Qed.

Lemma find_action_by_name offered a :
  In a offered ->
  find (fun x => String.eqb (action_name x) (action_name a)) offered = Some a.
Proof.
  induction offered as [ | x offered IH]; intros Hin; [contradiction | ].
  simpl. destruct (String.eqb_spec (action_name x) (action_name a)) as [E | N].
  - now apply action_name_inj in E as ->.
  - destruct Hin as [-> | Hin]; [contradiction | now apply IH].
Qed.

(** X1: the enum of the schema accepts a string exactly when it is the name
    of an offered action, and gives back that action. *)
Theorem enum_accepts_offered_names offered s a :
  parse_action offered (Some (JStr s)) = inr a <->
  In a offered /\ s = action_name a.
Proof.
  unfold parse_action. split.
  - destruct (find _ offered) as [x | ] eqn:Hfind; [ | discriminate].
    intros H; injection H as ->. apply find_some in Hfind as [Hin Hname].
    split; [exact Hin | ]. symmetry. now apply String.eqb_eq.
  - intros [Hin ->]. now rewrite find_action_by_name.
Qed.

(** X2: with a chip range offered, a proposal that names an offered action
    and carries a number between the bounds, bounds included, is accepted
    as it is, whatever other keys it has. *)
Theorem proposal_with_bet_is_accepted L r entries a q :
  LegalActions.chipRange L = Some r ->
  In a (LegalActions.actions L) ->
  field "action" entries = Some (JStr (action_name a)) ->
  field "betSize" entries = Some (JNum q) ->
  (ChipRange.min r <= q /\ q <= ChipRange.max r)%Q ->
  parse_takenAction L (Some (JObj entries))
  = inr {| TakenAction.action := a; TakenAction.betSize := Some q |}.
Proof.
  intros Hr Hin Ha Hb [Hlo Hhi]. unfold parse_takenAction.
  rewrite Hr, Ha, Hb. unfold parse_action, parse_betSize.
  rewrite (find_action_by_name _ _ Hin).
  apply Qle_bool_iff in Hlo, Hhi. now rewrite Hlo, Hhi.
Qed.

(** X3: a proposal that names an offered action and has no bet size, or is
    made when no chip range is offered, is accepted with no bet size; this
    holds for [bet] and [raise] as for the other actions. *)
Theorem proposal_without_bet_is_accepted L entries a :
  In a (LegalActions.actions L) ->
  field "action" entries = Some (JStr (action_name a)) ->
  LegalActions.chipRange L = None \/ field "betSize" entries = None ->
  parse_takenAction L (Some (JObj entries))
  = inr {| TakenAction.action := a; TakenAction.betSize := None |}.
Proof.
  intros Hin Ha Hno. unfold parse_takenAction. rewrite Ha.
  unfold parse_action. rewrite (find_action_by_name _ _ Hin).
  destruct (LegalActions.chipRange L) as [r | ]; [ | reflexivity].
  destruct Hno as [Hno | Hno]; [discriminate | ]. now rewrite Hno.
Qed.

Section Answers.

Variable G : GameRules.t.
Variable anthropic : nat -> Request.t -> ApiResult.

Lemma find_first_match {A} (p : A -> bool) pre x post :
  forallb (fun y => negb (p y)) pre = true ->
  p x = true ->
  find p (pre ++ x :: post) = Some x.
Proof.
  induction pre as [ | y pre IH]; simpl; intros Hpre Hx.
  - now rewrite Hx.
  - apply andb_prop in Hpre as [Hy Hpre].
    apply negb_true_iff in Hy. rewrite Hy. now apply IH.
Qed.

Lemma find_no_match {A} (p : A -> bool) l :
  forallb (fun y => negb (p y)) l = true -> find p l = None.
Proof.
  induction l as [ | y l IH]; simpl; intros H; [reflexivity | ].
  apply andb_prop in H as [Hy Hl].
  apply negb_true_iff in Hy. rewrite Hy. now apply IH.
Qed.

(** X4: of the blocks of an answer, the first [take_action] tool call
    decides: the blocks before it and everything after it are not looked
    at. *)
Theorem first_tool_call_decides player prompt L s before block after :
  anthropic (requests s) (request_for player prompt L)
  = Resolved (before ++ block :: after) ->
  forallb (fun b => negb (is_take_action b)) before = true ->
  is_take_action block = true ->
  outcome (callModel G anthropic player prompt L s)
  = match parse_takenAction L (field "input" (ContentBlock.props block)) with
    | inl e => Threw e
    | inr A => Returned A
    end.
Proof.
  intros Hres Hbefore Hblock. rewrite callModel_run. unfold outcome; simpl.
  now rewrite Hres, (find_first_match _ _ _ _ Hbefore Hblock).
Qed.

(** X5: an answer with no [take_action] tool call among its blocks, an
    empty answer included, is a failed decision: once the snapshot and the
    prompt are made, after the one request the error "No tool use block
    found" goes to the console and the decision is the fallback. *)
Theorem answer_without_tool_call_folds player s d prompt content :
  createTemplateData G (table s) (players s) player = inr d ->
  ModelPlayer.template player d = inr prompt ->
  anthropic (requests s)
    (request_for player prompt (GameRules.legalActions G (table s)))
  = Resolved content ->
  forallb (fun b => negb (is_take_action b)) content = true ->
  getModelAction G anthropic player s
  = (Returned fallback, after_request G s,
     [Requested
        (request_for player prompt (GameRules.legalActions G (table s)));
      ConsoleError NoToolUse]).
Proof.
  intros Hd Hp Hres Hnone. apply (getModelAction_failed _ _ _ _ _ _ _ Hd Hp).
  rewrite callModel_run. unfold outcome; simpl.
  now rewrite Hres, (find_no_match _ _ Hnone).
Qed.

End Answers.

(** ** What a decision does and does not do *)

Section Deciding.

Variable G : GameRules.t.
Variable anthropic : nat -> Request.t -> ApiResult.

(** X6: asking for a decision never touches the table or the roster, sends
    no command and writes nothing in the journal; it sends one request when
    the snapshot builds and the template renders it, none when either
    throws, and never a second one. *)
Theorem decision_leaves_the_game_alone player s :
  table (final (getModelAction G anthropic player s)) = table s /\
  players (final (getModelAction G anthropic player s)) = players s /\
  calls (effects (getModelAction G anthropic player s)) = [] /\
  journal (effects (getModelAction G anthropic player s)) = [] /\
  List.length (sent (effects (getModelAction G anthropic player s)))
  = match createTemplateData G (table s) (players s) player with
    | inr d =>
        match ModelPlayer.template player d with
        | inr _ => 1
        | inl _ => 0
        end
    | inl _ => 0
    end.
Proof.
  destruct (createTemplateData G (table s) (players s) player)
    as [e | d] eqn:Hd.
  { rewrite (getModelAction_unprepared G anthropic player s e);
      [ | now left].
    unfold final, effects; simpl. repeat split. }
  destruct (ModelPlayer.template player d) as [e | prompt] eqn:Hp.
  { rewrite (getModelAction_unprepared G anthropic player s e);
      [ | right; now exists d].
    unfold final, effects; simpl. repeat split. }
  destruct (outcome (callModel G anthropic player prompt
                       (GameRules.legalActions G (table s)) s))
    as [A | e | ] eqn:Hcall.
  - rewrite (getModelAction_ok _ _ _ _ _ _ _ Hd Hp Hcall).
    unfold final, effects; simpl. repeat split.
  - rewrite (getModelAction_failed _ _ _ _ _ _ _ Hd Hp Hcall).
    unfold final, effects; simpl. repeat split.
  - now apply callModel_returns_or_throws in Hcall.
Qed.

(** X7: a decision that comes back is an offered action, or [fold]; a bet
    size in it was offered a chip range and lies within it. *)
Theorem decision_is_offered_or_fold player s A :
  outcome (getModelAction G anthropic player s) = Returned A ->
  (In (TakenAction.action A)
      (LegalActions.actions (GameRules.legalActions G (table s))) \/
   A = fallback) /\
  (forall b, TakenAction.betSize A = Some b ->
     exists r,
       LegalActions.chipRange (GameRules.legalActions G (table s)) = Some r /\
       (ChipRange.min r <= b /\ b <= ChipRange.max r)%Q).
Proof.
  intros Hret.
  destruct (createTemplateData G (table s) (players s) player)
    as [e | d] eqn:Hd.
  { rewrite (getModelAction_unprepared G anthropic player s e) in Hret;
      [discriminate | now left]. }
  destruct (ModelPlayer.template player d) as [e | prompt] eqn:Hp.
  { rewrite (getModelAction_unprepared G anthropic player s e) in Hret;
      [discriminate | right; now exists d]. }
  destruct (outcome (callModel G anthropic player prompt
                       (GameRules.legalActions G (table s)) s))
    as [A' | e | ] eqn:Hcall.
  - rewrite (getModelAction_ok _ _ _ _ _ _ _ Hd Hp Hcall) in Hret.
    injection Hret as ->.
    rewrite callModel_run in Hcall. unfold outcome in Hcall. simpl in Hcall.
    destruct (anthropic _ _) as [detail | content]; [discriminate | ].
    destruct (find _ _) as [block | ]; [ | discriminate].
    destruct (parse_takenAction _ _) as [e | A'] eqn:Hparse; [discriminate | ].
    injection Hcall as ->.
    destruct (parse_takenAction_accepts _ _ _ Hparse) as [Hin Hsize].
    split; [now left | exact Hsize].
  - rewrite (getModelAction_failed _ _ _ _ _ _ _ Hd Hp Hcall) in Hret.
    injection Hret as <-. split; [now right | discriminate].
  - now apply callModel_returns_or_throws in Hcall.
Qed.

End Deciding.

(** ** More on the snapshot *)

Section Views.

Variable G : GameRules.t.

Lemma traverse_Forall2 {A B} (f : A -> Thrown + B) l ys :
  traverse f l = inr ys -> Forall2 (fun x y => f x = inr y) l ys.
Proof.
  revert ys. induction l as [ | x l IH]; simpl; intros ys H.
  - injection H as <-. constructor.
  - destruct (f x) as [e | y] eqn:Hx; [discriminate | ].
    destruct (traverse f l) as [e | ys']; [discriminate | ].
    injection H as <-. constructor; [exact Hx | now apply IH].
Qed.

Lemma traverse_succeeds {A B} (f : A -> Thrown + B) l :
  (forall x, In x l -> exists y, f x = inr y) ->
  exists ys, traverse f l = inr ys.
Proof.
  induction l as [ | x l IH]; simpl; intros H; [now eexists | ].
  destruct (H x (or_introl eq_refl)) as [y ->].
  destruct IH as [ys ->]; [intros; apply H; now right | now eexists].
Qed.

Lemma traverse_fails {A B} (f : A -> Thrown + B) l e :
  traverse f l = inl e -> exists x, In x l /\ f x = inl e.
Proof.
  induction l as [ | x l IH]; simpl; [discriminate | ].
  destruct (f x) as [e' | y] eqn:Hx.
  - intros H; injection H as ->. exists x. now split; [left | ].
  - destruct (traverse f l) as [e' | ys]; [ | discriminate].
    intros H; injection H as ->.
    destruct (IH eq_refl) as (x' & Hin & Hx'). exists x'. now split; [right | ].
Qed.

Lemma traverse_defined {A B} (f : A -> Thrown + B) l :
  (exists ys, traverse f l = inr ys) <->
  (forall x, In x l -> exists y, f x = inr y).
Proof.
  split; [ | apply traverse_succeeds].
  intros [ys Hys] x Hx. apply traverse_Forall2 in Hys.
  revert x Hx. induction Hys as [ | x0 y0 l ys H0 _ IH]; intros x Hx;
    [contradiction | ].
  destruct Hx as [<- | Hx]; [now exists y0 | now apply IH].
Qed.

Lemma name_at_defined ps i :
  (exists n, name_at ps i = inr n) <-> i < List.length ps.
Proof.
  unfold name_at. rewrite <- nth_error_Some.
  destruct (nth_error ps i) as [p | ]; split.
  - discriminate.
  - intros _. now eexists.
  - intros [n Hn]. discriminate.
  - intros H. now elim H.
Qed.

Lemma name_at_error ps i e : name_at ps i = inl e -> e = TypeError "name".
Proof.
  unfold name_at. destruct (nth_error ps i); [discriminate | ].
  intros H; now injection H as <-.
Qed.

Lemma pot_view_defined ps pot :
  (exists v, pot_view ps pot = inr v) <->
  (forall i, In i (Pot.eligiblePlayers pot) -> i < List.length ps).
Proof.
  unfold pot_view. split.
  - intros [v Hv] i Hi.
    destruct (traverse (name_at ps) (Pot.eligiblePlayers pot))
      as [e | names] eqn:Hnames; [discriminate | ].
    apply name_at_defined.
    apply (proj1 (traverse_defined (name_at ps) (Pot.eligiblePlayers pot)));
      [now exists names | exact Hi].
  - intros Hfit.
    destruct (traverse_succeeds (name_at ps) (Pot.eligiblePlayers pot))
      as [names ->]; [ | now eexists].
    intros i Hi. apply name_at_defined. now apply Hfit.
Qed.

Lemma playerStacks_of_builds ps seats :
  exists stacks, playerStacks_of ps seats = inr stacks.
Proof.
  unfold playerStacks_of, traversei, filteri.
  destruct (stacks_from ps seats 0) as (stacks & Hrun & _). now exists stacks.
Qed.

(** X8: the snapshot builds exactly when every seat index listed as
    eligible in a pot is a seat of the roster; when it does not build, what
    is thrown is the error of reading [name] on an undefined player. *)
Theorem snapshot_builds_iff_pots_fit_roster t ps player :
  ((exists d, createTemplateData G t ps player = inr d) <->
   (forall pot i,
      In pot (GameRules.pots G t) -> In i (Pot.eligiblePlayers pot) ->
      i < List.length ps)) /\
  (forall e, createTemplateData G t ps player = inl e -> e = TypeError "name").
Proof.
  unfold createTemplateData.
  destruct (playerStacks_of_builds ps (GameRules.seats G t)) as [stacks ->].
  split; [split | ].
  - intros [d Hd] pot i Hpot Hi.
    destruct (traverse (pot_view ps) (GameRules.pots G t)) as [e | views] eqn:Hv;
      [discriminate | ].
    apply (proj1 (pot_view_defined ps pot)); [ | exact Hi].
    apply (proj1 (traverse_defined (pot_view ps) (GameRules.pots G t)));
      [now exists views | exact Hpot].
  - intros Hfit.
    destruct (traverse_succeeds (pot_view ps) (GameRules.pots G t))
      as [views ->]; [ | now eexists].
    intros pot Hpot. apply pot_view_defined. intros i Hi.
    now apply (Hfit pot i).
  - intros e He.
    destruct (traverse (pot_view ps) (GameRules.pots G t)) as [e' | views] eqn:Hv;
      [ | discriminate].
    injection He as ->.
    apply traverse_fails in Hv as (pot & _ & Hpot). unfold pot_view in Hpot.
    destruct (traverse (name_at ps) (Pot.eligiblePlayers pot))
      as [e' | names] eqn:Hn; [ | discriminate].
    injection Hpot as ->.
    apply traverse_fails in Hn as (i & _ & Hi). now apply name_at_error in Hi.
Qed.

Lemma filteri_from_length {A} n (l : list A) k :
  List.length (filteri_from (fun _ i => i <? n) k l)
  = Nat.min (List.length l) (n - k).
Proof.
  revert k. induction l as [ | x l IH]; intros k; [reflexivity | ].
  cbn [filteri_from]. destruct (Nat.ltb_spec k n); cbn [List.length];
    rewrite IH; lia.
Qed.

Lemma traversei_from_length {A B} (f : A -> nat -> Thrown + B) k l ys :
  traversei_from f k l = inr ys -> List.length ys = List.length l.
Proof.
  revert k ys. induction l as [ | x l IH]; simpl; intros k ys H.
  - now injection H as <-.
  - destruct (f x k); [discriminate | ].
    destruct (traversei_from f (S k) l) as [e | ys'] eqn:Hrest;
      [discriminate | ].
    injection H as <-. simpl. f_equal. now apply (IH (S k)).
Qed.

(** X9: the snapshot lists one stack per seat of the table that has a
    player of the roster: the seats past the roster are left out, and a
    roster longer than the table is cut at the table's seats. *)
Theorem snapshot_lists_roster_seats t ps player d :
  createTemplateData G t ps player = inr d ->
  List.length (TemplateData.playerStacks d)
  = Nat.min (List.length (GameRules.seats G t)) (List.length ps).
Proof.
  unfold createTemplateData.
  destruct (traverse _ _) as [e | views]; [discriminate | ].
  destruct (playerStacks_of ps (GameRules.seats G t)) as [e | stacks] eqn:Hs;
    [discriminate | ].
  intros H; injection H as <-. simpl.
  unfold playerStacks_of, traversei, filteri in Hs.
  apply traversei_from_length in Hs. rewrite Hs, filteri_from_length. lia.
Qed.

(** X10: the snapshot has one pot per pot of the table, in order, with the
    same size, and with the names of the roster's players in place of the
    eligible seat indices, in order. *)
Theorem snapshot_pots_name_the_eligible t ps player d :
  createTemplateData G t ps player = inr d ->
  Forall2
    (fun pot view =>
       PotView.size view = Pot.size pot /\
       Forall2
         (fun i n =>
            exists p, nth_error ps i = Some p /\ n = ModelPlayer.name p)
         (Pot.eligiblePlayers pot) (PotView.eligiblePlayers view))
    (GameRules.pots G t) (TemplateData.pots d).
Proof.
  unfold createTemplateData.
  destruct (traverse (pot_view ps) (GameRules.pots G t)) as [e | views] eqn:Hv;
    [discriminate | ].
  destruct (playerStacks_of _ _); [discriminate | ].
  intros H; injection H as <-. simpl.
  apply traverse_Forall2 in Hv.
  induction Hv as [ | pot view pots views Hview _ IH]; constructor;
    [ | exact IH].
  unfold pot_view in Hview.
  destruct (traverse (name_at ps) (Pot.eligiblePlayers pot))
    as [e | names] eqn:Hn; [discriminate | ].
  injection Hview as <-. simpl. split; [reflexivity | ].
  apply traverse_Forall2 in Hn.
  induction Hn as [ | i n idxs ns Hi _ IHn]; constructor; [ | exact IHn].
  unfold name_at in Hi. destruct (nth_error ps i) as [p | ]; [ | discriminate].
  injection Hi as <-. now exists p.
Qed.

End Views.

(** ** Loading the roster *)

Section Loading.

Variable G : GameRules.t.
Variable anthropic : nat -> Request.t -> ApiResult.
Variable compile : string -> TemplateData.t -> Thrown + string.

Lemma loadPlayer_run dir s :
  loadPlayer G compile dir s =
  match dir with
  | inl e => (Threw e, s, [])
  | inr files =>
      let player :=
        {| ModelPlayer.name := PlayerConfig.name (fst files);
           ModelPlayer.model := PlayerConfig.model (fst files);
           ModelPlayer.index := List.length (players s);
           ModelPlayer.prompt := snd files;
           ModelPlayer.template := compile (snd files) |} in
      let s1 := {| table := table s; players := players s ++ [player];
                   requests := requests s |} in
      if GameRules.numSeats G (table s) <? List.length (players s ++ [player])
      then (Threw (TooManyPlayers (GameRules.numSeats G (table s))), s1, [])
      else
        match GameRules.sitDown G (table s) (List.length (players s))
                INITIAL_CHIPS with
        | inl e =>
            (Threw e, s1,
             [Refused (Call.sitDown (List.length (players s)) INITIAL_CHIPS)
                e])
        | inr t' =>
            (Returned tt, with_table G s1 t',
             [Command (Call.sitDown (List.length (players s)) INITIAL_CHIPS)])
        end
  end.
Proof.
  unfold loadPlayer, bind, lift, get_players, get_table, push_player,
    throw, ret, command, perform.
  destruct dir as [e | files]; simpl; [reflexivity | ].
  destruct (GameRules.numSeats G (table s) <? _); simpl; [reflexivity | ].
  destruct (GameRules.sitDown G (table s) _ _); reflexivity.
Qed.

Lemma loadPlayers_returned dirs s s' tr :
  loadPlayers G compile dirs s = (Returned tt, s', tr) ->
  requests s' = requests s /\
  tr = map (fun i => Command (Call.sitDown i INITIAL_CHIPS))
         (seq (List.length (players s)) (List.length dirs)) /\
  exists added,
    players s' = players s ++ added /\
    List.length added = List.length dirs /\
    forall k p,
      nth_error added k = Some p ->
      exists config prompt,
        nth_error dirs k = Some (inr (config, prompt)) /\
        ModelPlayer.index p = List.length (players s) + k /\
        ModelPlayer.name p = PlayerConfig.name config /\
        ModelPlayer.model p = PlayerConfig.model config /\
        ModelPlayer.prompt p = prompt /\
        ModelPlayer.template p = compile prompt.
Proof.
  revert s s' tr. induction dirs as [ | dir dirs IH]; intros s s' tr H.
  - simpl in H. injection H as <- <-. split; [reflexivity | ].
    split; [reflexivity | ]. exists []. rewrite app_nil_r.
    split; [reflexivity | split; [reflexivity | ]]. intros [ | k]; discriminate.
  - simpl in H.
    apply bind_returned in H as (u & s1 & tr1 & tr2 & Hload & Hrest & ->).
    rewrite loadPlayer_run in Hload.
    destruct dir as [e | [config prompt]]; [discriminate | ]. simpl in Hload.
    destruct (GameRules.numSeats G (table s) <? _); [discriminate | ].
    destruct (GameRules.sitDown G (table s) _ _) as [e | t'];
      [discriminate | ].
    injection Hload as _ <- <-.
    apply IH in Hrest as (Hreq & -> & added & Hplayers & Hlen & Hnth).
    simpl in Hreq, Hplayers, Hnth. rewrite length_app in *. simpl in *.
    split; [exact Hreq | ]. split.
    + rewrite ?length_app. simpl. now rewrite Nat.add_1_r.
    + eexists (_ :: added). split; [ | split].
      * rewrite Hplayers, <- app_assoc. reflexivity.
      * simpl. now rewrite Hlen.
      * intros [ | k] p Hp; simpl in Hp.
        -- injection Hp as <-. exists config, prompt. simpl.
           rewrite Nat.add_0_r. repeat split.
        -- destruct (Hnth k p Hp)
             as (config' & prompt' & Hdir & Hidx & Hrest).
           exists config', prompt'. simpl.
           split; [exact Hdir | split; [lia | exact Hrest]].
Qed.

Lemma loadPlayers_ends dirs s :
  outcome (loadPlayers G compile dirs s) <> Diverged.
Proof.
  revert s. induction dirs as [ | dir dirs IH]; intros s; simpl;
    [discriminate | ].
  unfold bind. destruct (loadPlayer_spec G compile dir s) as (_ & Hend & _).
  destruct (loadPlayer G compile dir s) as [[[[] | e | ] s1] tr1];
    try discriminate; [ | now elim Hend].
  specialize (IH s1). unfold outcome in *.
  destruct (loadPlayers G compile dirs s1) as [[o2 s2] tr2]. exact IH.
Qed.

(** X11: when the roster has loaded, it has one player per directory, in
    the order of the directories; the player at position [k] has seat index
    [k], the name and model of the [k]-th configuration, the [k]-th prompt
    and its compiled template. *)
Theorem loaded_roster_follows_directories playerDirs s' tr :
  loadPlayers G compile playerDirs (initial G) = (Returned tt, s', tr) ->
  List.length (players s') = List.length playerDirs /\
  forall k p,
    nth_error (players s') k = Some p ->
    exists config prompt,
      nth_error playerDirs k = Some (inr (config, prompt)) /\
      ModelPlayer.index p = k /\
      ModelPlayer.name p = PlayerConfig.name config /\
      ModelPlayer.model p = PlayerConfig.model config /\
      ModelPlayer.prompt p = prompt /\
      ModelPlayer.template p = compile prompt.
Proof.
  intros H.
  apply loadPlayers_returned in H as (_ & _ & added & Hplayers & Hlen & Hnth).
  simpl in Hplayers, Hnth. rewrite Hplayers. split; [exact Hlen | exact Hnth].
Qed.

(** X12: when the roster has loaded, the table was asked, and agreed, to
    seat the players at the seats 0, 1, 2, ... in this order, each with
    1000 chips, and nothing else happened. *)
Theorem loading_seats_players_in_order playerDirs s' tr :
  loadPlayers G compile playerDirs (initial G) = (Returned tt, s', tr) ->
  tr = map (fun i => Command (Call.sitDown i 1000%Q))
         (seq 0 (List.length playerDirs)).
Proof.
  intros H. now apply loadPlayers_returned in H as (_ & Htr & _).
Qed.

(** X13: a player directory that cannot be read is fatal: [main] throws
    while it loads the roster, with nothing in the journal and no hand
    started. *)
Theorem unreadable_directory_is_fatal fuel playerDirs e :
  In (inl e) playerDirs ->
  (exists e',
     outcome (main G anthropic compile fuel playerDirs (initial G))
     = Threw e') /\
  journal (effects (main G anthropic compile fuel playerDirs (initial G)))
  = [] /\
  started (effects (main G anthropic compile fuel playerDirs (initial G)))
  = 0.
Proof.
  intros Hin.
  pose proof (loadPlayers_effects G compile playerDirs (initial G)) as Hseat.
  pose proof (loadPlayers_ends playerDirs (initial G)) as Hend.
  unfold main, bind, outcome, effects in *.
  destruct (loadPlayers G compile playerDirs (initial G))
    as [[[[] | e' | ] s1] tr1] eqn:Hload; simpl in *.
  - exfalso.
    apply loadPlayers_returned in Hload as (_ & _ & added & _ & Hlen & Hnth).
    apply In_nth_error in Hin as [k Hk].
    assert (Hk' : k < List.length added).
    { rewrite Hlen. apply nth_error_Some. intros Hnone.
      discriminate (eq_trans (eq_sym Hk) Hnone). }
    apply nth_error_Some in Hk'.
    destruct (nth_error added k) as [p | ] eqn:Hp; [ | now elim Hk'].
    destruct (Hnth k p Hp) as (config & prompt & Hdir & _).
    discriminate (eq_trans (eq_sym Hk) Hdir).
  - apply seating_silent in Hseat as [Hj Hs].
    split; [now exists e' | now split].
  - now elim Hend.
Qed.

End Loading.

(** ** Accounts of a run *)

Lemma sent_app a b : sent (a ++ b) = sent a ++ sent b.
Proof.
  induction a as [ | x a' IH]; simpl; [reflexivity | ].
  destruct x; simpl; rewrite ?IH; reflexivity.
Qed.

Lemma carried_app a b : carried (a ++ b) = carried a ++ carried b.
Proof.
  induction a as [ | x a' IH]; simpl; [reflexivity | ].
  destruct x; simpl; rewrite ?IH; reflexivity.
Qed.

Lemma console_app a b : console (a ++ b) = console a ++ console b.
Proof.
  induction a as [ | x a' IH]; simpl; [reflexivity | ].
  destruct x; simpl; rewrite ?IH; reflexivity.
Qed.

Lemma count_app {A} (p : A -> bool) a b :
  count p (a ++ b) = count p a + count p b.
Proof. unfold count. now rewrite filter_app, length_app. Qed.

Lemma replay_app G a b t :
  replay G (a ++ b) t
  = match replay G a t with
    | Some t' => replay G b t'
    | None => None
    end.
Proof.
  revert t. induction a as [ | c a IH]; intros t; simpl; [reflexivity | ].
  destruct (perform G c t); [reflexivity | apply IH].
Qed.

Section Accounts.

Variable G : GameRules.t.
Variable anthropic : nat -> Request.t -> ApiResult.
Variable compile : string -> TemplateData.t -> Thrown + string.

(** The cases of a turn, with the pieces named. *)
Ltac turn_cases s :=
  let e := fresh "e" in
  let Hpre := fresh "Hpre" in
  destruct (turn_shapes G anthropic s)
    as [(e & _ & ->) | (? & ? & ? & ? & ? & _ & _ & _ & Hpre & _ & ->)];
  [ | destruct Hpre as [[-> _] | (? & -> & -> & _)];
      destruct (GameRules.actionTaken G (table s) _ _) eqn:? ];
  unfold final, effects; simpl.

Ltac load_cases dir s :=
  rewrite (loadPlayer_run G compile dir s);
  destruct dir as [? | ?]; simpl;
  [ | destruct (GameRules.numSeats G (table s) <? _); simpl;
      [ | destruct (GameRules.sitDown G (table s) _ _) eqn:?; simpl ] ];
  unfold final, effects; simpl.

(** X14: over a whole run, however it ends, as many requests went to the
    model as decisions were recorded in the journal: a failed call is not
    tried again, and no action is recorded without a request. *)
Theorem one_request_per_recorded_action fuel playerDirs :
  List.length
    (sent (effects (main G anthropic compile fuel playerDirs (initial G))))
  = List.length
      (acted (journal (effects (main G anthropic compile fuel playerDirs
                                  (initial G))))).
Proof.
  apply (main_step G anthropic compile
           (fun _ _ tr =>
              List.length (sent tr) = List.length (acted (journal tr))));
    try (intros; reflexivity).
  - intros s s1 s2 a b Ha Hb.
    rewrite sent_app, journal_app, acted_app, !length_app. lia.
  - intros s. turn_cases s; reflexivity.
  - intros dir s. load_cases dir s; reflexivity.
Qed.

(** X15: the game loop never changes the roster. *)
Theorem game_loop_keeps_the_roster fuel n handIndex s :
  players (final (gameLoop G anthropic fuel n handIndex s)) = players s.
Proof.
  apply (gameLoop_step G anthropic
           (fun s s' _ => players s' = players s));
    try (intros; reflexivity).
  - intros s0 s1 s2 a b Ha Hb. congruence.
  - intros s0. turn_cases s0; reflexivity.
Qed.

(** X16: the table a run ends with, however it ends, is the table it
    started with after the commands the table carried out, in their order:
    the program changes the table through these commands only. *)
Theorem table_follows_the_commands fuel playerDirs :
  replay G
    (carried (effects (main G anthropic compile fuel playerDirs (initial G))))
    (table (initial G))
  = Some (table (final (main G anthropic compile fuel playerDirs
                          (initial G)))).
Proof.
  apply (main_step G anthropic compile
           (fun s s' tr => replay G (carried tr) (table s) = Some (table s')));
    try (intros; reflexivity).
  - intros s s1 s2 a b Ha Hb. now rewrite carried_app, replay_app, Ha.
  - intros s. turn_cases s;
      rewrite ?carried_app; simpl;
      try match goal with H : GameRules.actionTaken _ _ _ _ = _ |- _ =>
            simpl in H; rewrite H end;
      reflexivity.
  - intros s t' H. simpl. now rewrite H.
  - intros s t' H. simpl. now rewrite H.
  - intros s t' h H. simpl. now rewrite H.
  - intros dir s. load_cases dir s;
      try match goal with H : GameRules.sitDown _ _ _ _ = _ |- _ =>
            rewrite H end;
      reflexivity.
Qed.

(** X17: every error written on the console during the game comes with a
    [fold] in the journal: there are at least as many recorded folds as
    console errors. *)
Theorem console_errors_come_with_folds fuel playerDirs :
  List.length
    (console (effects (main G anthropic compile fuel playerDirs (initial G))))
  <= count is_fold
       (acted (journal (effects (main G anthropic compile fuel playerDirs
                                   (initial G))))).
Proof.
  apply (main_step G anthropic compile
           (fun _ _ tr =>
              List.length (console tr)
              <= count is_fold (acted (journal tr))));
    try (intros; unfold count; simpl; lia).
  - intros s s1 s2 a b Ha Hb.
    rewrite console_app, journal_app, acted_app, count_app, length_app. lia.
  - intros s. turn_cases s; unfold count; simpl;
      try destruct (TakenAction.action _); simpl; lia.
  - intros dir s. load_cases dir s; unfold count; simpl; lia.
Qed.

(** X18: the journal has one [end_betting_round] record for each
    [endBettingRound] the table carried out and one [showdown] record for
    each [showdown] it carried out, however the run ends. *)
Theorem round_ends_and_showdowns_are_recorded fuel playerDirs :
  count is_round_end
    (journal (effects (main G anthropic compile fuel playerDirs (initial G))))
  = count ends_round
      (carried (effects (main G anthropic compile fuel playerDirs
                           (initial G)))) /\
  count is_showdown
    (journal (effects (main G anthropic compile fuel playerDirs (initial G))))
  = count shows_down
      (carried (effects (main G anthropic compile fuel playerDirs
                           (initial G)))).
Proof.
  apply (main_step G anthropic compile
           (fun _ _ tr =>
              count is_round_end (journal tr) = count ends_round (carried tr)
              /\ count is_showdown (journal tr)
                 = count shows_down (carried tr)));
    try (intros; split; reflexivity).
  - intros s s1 s2 a b [Ha Ha'] [Hb Hb'].
    rewrite journal_app, carried_app, !count_app. lia.
  - intros s. turn_cases s; rewrite ?journal_app, ?carried_app;
      split; reflexivity.
  - intros dir s. load_cases dir s; split; reflexivity.
Qed.

End Accounts.

(** ** Hands in the journal and the end of the loops *)

Lemma hand_effects_open_no_hand tr :
  forallb is_hand_effect tr = true ->
  count is_hand_start (journal tr) = 0 /\ count is_hand_end (journal tr) = 0.
Proof.
  induction tr as [ | x tr IH]; simpl; [now split | ].
  intros H. apply andb_prop in H as [Hx Htr]. specialize (IH Htr).
  destruct x as [[ | | | | | | ] | | [ | | | | ] | | ];
    simpl in *; try discriminate; exact IH.
Qed.

Section Hands.

Variable G : GameRules.t.
Variable anthropic : nat -> Request.t -> ApiResult.
Variable compile : string -> TemplateData.t -> Thrown + string.

Lemma gameLoop_hands_balance fuel n h s o s' tr :
  gameLoop G anthropic fuel n h s = (o, s', tr) ->
  count is_hand_end (journal tr) <= count is_hand_start (journal tr) /\
  count is_hand_start (journal tr) <= S (count is_hand_end (journal tr)) /\
  (o = Returned tt ->
   count is_hand_start (journal tr) = count is_hand_end (journal tr)).
Proof.
  revert h s o s' tr. induction n as [ | n IH]; intros h s o s' tr H;
    simpl in H; unfold bind, get_table, command, logger, emit in H;
    simpl in H; destruct (1 <? occupied G (table s));
    try (injection H as <- <- <-; unfold count; simpl;
         repeat split; try lia; discriminate).
  destruct (GameRules.startHand G (table s)) as [e | t'];
    [injection H as <- <- <-; unfold count; simpl;
     repeat split; try lia; discriminate | ].
  pose proof (handLoop_effects G anthropic fuel fuel (with_table G s t'))
    as Hhand.
  apply hand_effects_open_no_hand in Hhand as [Hs He].
  unfold effects in Hs, He.
  destruct (handLoop G anthropic fuel fuel (with_table G s t'))
    as [[[[] | e | ] s2] trh]; simpl in *;
    try (injection H as <- <- <-; simpl; unfold count in *; simpl;
         repeat split; try lia; discriminate).
  destruct (gameLoop G anthropic fuel n (S h) s2) as [[o3 s3] tr3] eqn:Hrest.
  apply IH in Hrest as (H1 & H2 & H3). injection H as <- <- <-. simpl.
  rewrite journal_app. unfold count in *. simpl.
  rewrite !filter_app, !length_app. simpl.
  repeat split; try lia. intros Ho. specialize (H3 Ho). lia.
Qed.

(** X19: in the journal of any run, however it ends, the hands are opened
    and closed in turn: there are as many [hand_end] records as [hand_start]
    records, or one less when the run stopped inside a hand; a run that ends
    normally has as many of the one as of the other. *)
Theorem hands_are_opened_and_closed fuel playerDirs :
  let r := main G anthropic compile fuel playerDirs (initial G) in
  count is_hand_end (journal (effects r))
  <= count is_hand_start (journal (effects r)) /\
  count is_hand_start (journal (effects r))
  <= S (count is_hand_end (journal (effects r))) /\
  (outcome r = Returned tt ->
   count is_hand_start (journal (effects r))
   = count is_hand_end (journal (effects r))).
Proof.
  intros r. subst r.
  destruct (main G anthropic compile fuel playerDirs (initial G))
    as [[o s'] tr] eqn:H.
  unfold outcome, effects; simpl.
  pose proof (loadPlayers_effects G compile playerDirs (initial G)) as Hload.
  apply seating_silent in Hload as [Hj _]. unfold effects in Hj.
  unfold main, bind, get_table, logger, emit in H.
  destruct (loadPlayers G compile playerDirs (initial G))
    as [[[[] | e | ] s1] tr1]; simpl in *;
    try (injection H as <- <- <-; rewrite Hj; unfold count; simpl;
         repeat split; try lia; discriminate).
  destruct (gameLoop G anthropic fuel fuel 1 s1)
    as [[o2 s2] tr2] eqn:Hloop.
  apply gameLoop_hands_balance in Hloop as (H1 & H2 & H3).
  destruct o2 as [[] | e | ];
    try (injection H as <- <- <-;
         rewrite journal_app, Hj; simpl;
         repeat split; try assumption; discriminate).
  specialize (H3 eq_refl).
  destruct (announceWinner G s2) as [[o3 s3] tr3] eqn:Hend.
  assert (Hquiet : count is_hand_start (journal tr3) = 0 /\
                   count is_hand_end (journal tr3) = 0).
  { unfold announceWinner, bind, get_table, get_players, lift, throw, ret,
      logger, emit in Hend. simpl in Hend.
    destruct (findIndex truthy (GameRules.seats G (table s2)));
      [destruct (name_at (players s2) _) | ];
      injection Hend as <- <- <-; now split. }
  destruct Hquiet as [Hs3 He3]. injection H as <- <- <-.
  rewrite journal_app, Hj. simpl. rewrite journal_app.
  unfold count in *. simpl. rewrite !filter_app, !length_app.
  repeat split; lia.
Qed.

(** X20: when the loop over a betting round returns, the table reports no
    betting round in progress. *)
Theorem betting_round_loop_ends_with_the_round n s s' tr :
  bettingRoundLoop G anthropic n s = (Returned tt, s', tr) ->
  GameRules.isBettingRoundInProgress G (table s') = false.
Proof.
  revert s s' tr. induction n as [ | n IH]; intros s s' tr H;
    simpl in H; rewrite bind_get_table in H;
    destruct (GameRules.isBettingRoundInProgress G (table s)) eqn:Hround;
    try discriminate;
    try (injection H as <- _; exact Hround).
  apply bind_returned in H as (u & s1 & tr1 & tr2 & _ & H & _).
  now apply IH in H.
Qed.

(** X21: when the loop over a hand returns, the table reports no hand in
    progress. *)
Theorem hand_loop_ends_with_the_hand fuel n s s' tr :
  handLoop G anthropic fuel n s = (Returned tt, s', tr) ->
  GameRules.isHandInProgress G (table s') = false.
Proof.
  revert s s' tr. induction n as [ | n IH]; intros s s' tr H;
    simpl in H; rewrite bind_get_table in H;
    destruct (GameRules.isHandInProgress G (table s)) eqn:Hhand;
    try discriminate;
    try (injection H as <- _; exact Hhand).
  apply bind_returned in H as (u1 & s1 & tr1 & tr2 & _ & H & _).
  apply bind_returned in H as (u2 & s2 & tr3 & tr4 & _ & H & _).
  apply bind_returned in H as (u3 & s3 & tr5 & tr6 & _ & H & _).
  apply bind_returned in H as (u4 & s4 & tr7 & tr8 & _ & H & _).
  apply bind_returned in H as (u5 & s5 & tr9 & tr10 & _ & H & _).
  now apply IH in H.
Qed.

End Hands.

(** ** The name of the game file *)

Lemma occurs_app c a b :
  occurs c (a ++ b)%string = occurs c a || occurs c b.
Proof.
  induction a as [ | x a IH]; simpl; [reflexivity | ].
  now rewrite IH, orb_assoc.
Qed.

Lemma replace_colons_app a b :
  replace_colons (a ++ b)%string
  = (replace_colons a ++ replace_colons b)%string.
Proof.
  induction a as [ | x a IH]; simpl; [reflexivity | now rewrite IH].
Qed.

Lemma replace_colons_no_colon s : occurs ":" (replace_colons s) = false.
Proof.
  induction s as [ | x s IH]; [reflexivity | ].
  cbn [replace_colons occurs]. rewrite IH, orb_false_r.
  destruct (Ascii.eqb_spec x ":") as [-> | N]; [reflexivity | ].
  apply Ascii.eqb_neq. congruence.
Qed.

Lemma skip_line_keeps c s : occurs c (skip_line s) = true -> occurs c s = true.
Proof.
  induction s as [ | x s IH]; [discriminate | ].
  cbn [skip_line]. destruct (is_line_terminator x); [trivial | ].
  cbn [occurs]. intros H. rewrite (IH H). apply orb_true_r.
Qed.

Lemma strip_fraction_keeps c s :
  occurs c (strip_fraction s) = true -> occurs c s = true.
Proof.
  induction s as [ | x s IH]; [discriminate | ].
  cbn [strip_fraction]. destruct (x =? ".")%char.
  - destruct s as [ | d s']; [trivial | ].
    destruct (is_line_terminator d).
    + cbn [occurs]. intros H. apply orb_prop in H as [H | H];
        [now rewrite H | ].
      apply IH in H. cbn [occurs] in H. rewrite H. apply orb_true_r.
    + intros H. apply skip_line_keeps in H. cbn [occurs] in H |- *.
      rewrite H. apply orb_true_r.
  - cbn [occurs]. intros H. apply orb_prop in H as [H | H];
      [now rewrite H | rewrite (IH H); apply orb_true_r].
Qed.

(** X22: whatever the text of the start time, the name of the game file
    has no colon in it. *)
Theorem game_file_has_no_colon iso : occurs ":" (gameFile iso) = false.
Proof.
  unfold gameFile, gameFilePrefix. rewrite !occurs_app.
  replace (occurs ":" "./games/") with false by reflexivity.
  replace (occurs ":" ".json") with false by reflexivity.
  rewrite orb_false_r, orb_false_l.
  destruct (occurs ":" (strip_fraction (replace_colons iso))) eqn:H;
    [ | reflexivity].
  apply strip_fraction_keeps in H. now rewrite replace_colons_no_colon in H.
Qed.

Lemma skip_line_of_one_line s : one_line s = true -> skip_line s = EmptyString.
Proof.
  induction s as [ | x s IH]; [reflexivity | ].
  cbn [one_line skip_line].
  destruct (is_line_terminator x); [discriminate | exact IH].
Qed.

Lemma strip_fraction_at_dot a g :
  occurs "." a = false ->
  g <> EmptyString ->
  one_line g = true ->
  strip_fraction (a ++ String "." g) = a.
Proof.
  intros Ha Hg Hline. induction a as [ | x a IH].
  - cbn [append strip_fraction].
    replace ("." =? ".")%char with true by reflexivity.
    destruct g as [ | c g']; [contradiction | ].
    destruct (is_line_terminator c) eqn:Hc;
      [cbn [one_line] in Hline; rewrite Hc in Hline; discriminate | ].
    now apply skip_line_of_one_line.
  - cbn [occurs] in Ha. apply orb_false_elim in Ha as [Hx Ha].
    cbn [append strip_fraction].
    rewrite Ascii.eqb_sym in Hx. rewrite Hx. now rewrite (IH Ha).
Qed.

Lemma replace_colons_keeps_dots s :
  occurs "." (replace_colons s) = occurs "." s.
Proof.
  induction s as [ | x s IH]; [reflexivity | ].
  cbn [replace_colons occurs]. rewrite IH.
  now destruct (Ascii.eqb_spec x ":") as [-> | N].
Qed.

Lemma replace_colons_keeps_lines s :
  one_line (replace_colons s) = one_line s.
Proof.
  induction s as [ | x s IH]; [reflexivity | ].
  cbn [replace_colons one_line]. rewrite IH.
  now destruct (Ascii.eqb_spec x ":") as [-> | N].
Qed.

(** X23: for a start time made of a part without a dot, a dot and a
    non-empty rest on the same line, the game file is named after the first
    part with dashes for its colons: the fraction of the second and what
    follows it are dropped, so that two runs started within the same second
    write to the same file. *)
Theorem game_file_drops_the_fraction (d f : string) :
  occurs "." d = false ->
  f <> EmptyString ->
  one_line f = true ->
  gameFile (d ++ String "." f)
  = ("./games/" ++ replace_colons d ++ ".json")%string.
Proof.
  intros Hd Hf Hline. unfold gameFile, gameFilePrefix.
  rewrite replace_colons_app. cbn [replace_colons].
  replace ("." =? ":")%char with false by reflexivity.
  rewrite strip_fraction_at_dot; [reflexivity | | | ].
  - now rewrite replace_colons_keeps_dots.
  - destruct f; [contradiction | discriminate].
  - now rewrite replace_colons_keeps_lines.
Qed.

(** ** The further properties on the small engine *)

Lemma proposal_with_bet_is_accepted_witness :
  parse_takenAction Scripted.offered (Some (Samples.raise_to 900%Q))
  = inr {| TakenAction.action := raise; TakenAction.betSize := Some 900%Q |}.
Proof.
  apply (proposal_with_bet_is_accepted Scripted.offered
           {| ChipRange.min := 100%Q; ChipRange.max := 900%Q |}
           [("action", JStr "raise"); ("betSize", JNum 900%Q);
            ("comment", JStr "pot odds")]
           raise 900%Q eq_refl);
    [simpl; tauto | reflexivity | reflexivity | ].
  split; unfold Qle; simpl; lia.
Defined.

Lemma proposal_without_bet_is_accepted_witness :
  parse_takenAction Scripted.offered (Some (Samples.plain "raise"))
  = inr {| TakenAction.action := raise; TakenAction.betSize := None |}.
Proof.
  apply (proposal_without_bet_is_accepted Scripted.offered
           [("action", JStr "raise")] raise);
    [simpl; tauto | reflexivity | right; reflexivity].
Defined.

Lemma first_tool_call_decides_witness :
  outcome (callModel Scripted.rules
             (Samples.says [Samples.text "I call.";
                            Scripted.tool_use (Samples.plain "call");
                            Scripted.tool_use (Samples.plain "fold")])
             (Scripted.player "A" 0) "prompt" Scripted.offered
             Samples.acting)
  = match parse_takenAction Scripted.offered
            (field "input"
               (ContentBlock.props
                  (Scripted.tool_use (Samples.plain "call")))) with
    | inl e => Threw e
    | inr A => Returned A
    end.
Proof.
  apply (first_tool_call_decides Scripted.rules
           (Samples.says [Samples.text "I call.";
                          Scripted.tool_use (Samples.plain "call");
                          Scripted.tool_use (Samples.plain "fold")])
           (Scripted.player "A" 0) "prompt" Scripted.offered Samples.acting
           [Samples.text "I call."]
           (Scripted.tool_use (Samples.plain "call"))
           [Scripted.tool_use (Samples.plain "fold")]);
    reflexivity.
Defined.

Lemma answer_without_tool_call_folds_witness :
  outcome (getModelAction Scripted.rules
             (Samples.says [Samples.text "I fold."])
             (Scripted.player "A" 0) Samples.acting)
  = Returned fallback /\
  console (effects (getModelAction Scripted.rules
                      (Samples.says [Samples.text "I fold."])
                      (Scripted.player "A" 0) Samples.acting))
  = [NoToolUse].
Proof.
  rewrite (answer_without_tool_call_folds Scripted.rules
             (Samples.says [Samples.text "I fold."])
             (Scripted.player "A" 0) Samples.acting _ _
             [Samples.text "I fold."] eq_refl eq_refl eq_refl eq_refl).
  split; reflexivity.
Defined.

Lemma decision_is_offered_or_fold_witness :
  let A := {| TakenAction.action := raise;
              TakenAction.betSize := Some 500%Q |} in
  In (TakenAction.action A)
     (LegalActions.actions
        (GameRules.legalActions Scripted.rules (table Samples.acting))) \/
  A = fallback.
Proof.
  apply (decision_is_offered_or_fold Scripted.rules
           (Samples.says [Scripted.tool_use (Samples.raise_to 500%Q)])
           (Scripted.player "A" 0) Samples.acting
           {| TakenAction.action := raise;
              TakenAction.betSize := Some 500%Q |}).
  reflexivity.
Defined.

Lemma snapshot_lists_roster_seats_witness :
  List.length
    [rendered "A" (Scripted.funded 1000%Q);
     rendered "B" (Scripted.funded 1000%Q)]
  = Nat.min (List.length (GameRules.seats Scripted.rules Scripted.heads_up))
      (List.length Scripted.roster).
Proof.
  exact (snapshot_lists_roster_seats Scripted.rules Scripted.heads_up
           Scripted.roster (Scripted.player "A" 0) _ eq_refl).
Defined.

Lemma snapshot_pots_name_the_eligible_witness :
  Forall2
    (fun pot view =>
       PotView.size view = Pot.size pot /\
       Forall2
         (fun i n =>
            exists p,
              nth_error Scripted.roster i = Some p /\ n = ModelPlayer.name p)
         (Pot.eligiblePlayers pot) (PotView.eligiblePlayers view))
    (GameRules.pots Scripted.rules Scripted.heads_up)
    [ {| PotView.size := 150%Q; PotView.eligiblePlayers := ["A"; "B"] |} ].
Proof.
  exact (snapshot_pots_name_the_eligible Scripted.rules Scripted.heads_up
           Scripted.roster (Scripted.player "A" 0) _ eq_refl).
Defined.

Lemma loaded_roster_follows_directories_witness :
  let r := loadPlayers Scripted.rules Scripted.compile
             [Scripted.dir "A"; Scripted.dir "B"] (initial Scripted.rules) in
  outcome r = Returned tt /\
  List.length (players (final r)) = 2 /\
  forall k p,
    nth_error (players (final r)) k = Some p ->
    exists config prompt,
      nth_error [Scripted.dir "A"; Scripted.dir "B"] k
      = Some (inr (config, prompt)) /\
      ModelPlayer.index p = k /\
      ModelPlayer.name p = PlayerConfig.name config /\
      ModelPlayer.model p = PlayerConfig.model config /\
      ModelPlayer.prompt p = prompt /\
      ModelPlayer.template p = Scripted.compile prompt.
Proof.
  intros r.
  assert (H : r = (Returned tt, final r, effects r))
    by (vm_compute; reflexivity).
  split; [vm_compute; reflexivity | ].
  exact (loaded_roster_follows_directories Scripted.rules Scripted.compile
           [Scripted.dir "A"; Scripted.dir "B"] (final r) (effects r) H).
Defined.

Lemma loading_seats_players_in_order_witness :
  let r := loadPlayers Scripted.rules Scripted.compile
             [Scripted.dir "A"; Scripted.dir "B"] (initial Scripted.rules) in
  outcome r = Returned tt /\
  effects r = [Command (Call.sitDown 0 1000%Q);
               Command (Call.sitDown 1 1000%Q)].
Proof.
  intros r.
  assert (H : r = (Returned tt, final r, effects r))
    by (vm_compute; reflexivity).
  split; [vm_compute; reflexivity | ].
  exact (loading_seats_players_in_order Scripted.rules Scripted.compile
           [Scripted.dir "A"; Scripted.dir "B"] (final r) (effects r) H).
Defined.

Lemma unreadable_directory_is_fatal_witness :
  let playerDirs :=
    [Scripted.dir "A"; inl (FsError "config.json"); Scripted.dir "B"] in
  In (inl (FsError "config.json")) playerDirs /\
  journal (effects (main Scripted.rules Scripted.unreachable Scripted.compile
                      5 playerDirs (initial Scripted.rules))) = [].
Proof.
  split; [simpl; tauto | ].
  apply (unreadable_directory_is_fatal Scripted.rules Scripted.unreachable
           Scripted.compile 5
           [Scripted.dir "A"; inl (FsError "config.json"); Scripted.dir "B"]
           (FsError "config.json")).
  simpl; tauto.
Defined.

Lemma betting_round_loop_ends_with_the_round_witness :
  let r := bettingRoundLoop Scripted.rules Scripted.unreachable 3
             Samples.acting in
  outcome r = Returned tt /\
  GameRules.isBettingRoundInProgress Scripted.rules (table (final r)) = false.
Proof.
  intros r.
  assert (H : r = (Returned tt, final r, effects r))
    by (vm_compute; reflexivity).
  split; [vm_compute; reflexivity | ].
  exact (betting_round_loop_ends_with_the_round Scripted.rules
           Scripted.unreachable 3 Samples.acting (final r) (effects r) H).
Defined.

Lemma hand_loop_ends_with_the_hand_witness :
  let r := handLoop Scripted.rules Scripted.unreachable 3 3
             Samples.acting in
  outcome r = Returned tt /\
  GameRules.isHandInProgress Scripted.rules (table (final r)) = false.
Proof.
  intros r.
  assert (H : r = (Returned tt, final r, effects r))
    by (vm_compute; reflexivity).
  split; [vm_compute; reflexivity | ].
  exact (hand_loop_ends_with_the_hand Scripted.rules Scripted.unreachable
           3 3 Samples.acting (final r) (effects r) H).
Defined.

Lemma game_file_drops_the_fraction_witness :
  gameFile (Samples.started_at ++ String "." "123Z")
  = ("./games/" ++ replace_colons Samples.started_at ++ ".json")%string.
Proof.
  apply (game_file_drops_the_fraction Samples.started_at "123Z");
    [reflexivity | discriminate | reflexivity].
Defined.
